(** * Repeated Balls-into-Bins: [rbb_stacs_2023.cc]

    A shallow embedding of the C++ program and the proofs of its
    specification.

    - [size_t] is a 64-bit unsigned integer (an LP64 platform), written as
      a [Z] with the reduction modulo [2^64] spelled out at every
      arithmetic operation; [int] has 32 bits.
    - [std::vector<size_t>] is a [list Z], read with [!!] and updated in
      place with [<[ _ := _ ]>].  Constructing a vector of more than
      [max_size()] elements throws [std::length_error]; below that bound
      allocation is assumed to succeed.
    - Undefined behaviour of the C++ abstract machine (an index outside
      the vector, overflow of an [int] counter, an integer division by
      zero) and an exception that nothing catches are explicit results of
      the functions that can run into them.
    - The random number generator and [std::uniform_int_distribution] are
      a type class: all that is known of a draw is that it lies in the
      range of the distribution.
    - [double] is the binary64 format of the primitive floats; what goes
      to [std::cout] is returned as a list of lines. *)

From Stdlib Require Import ZArith Lia.
From Stdlib Require Import Floats.PrimFloat Floats.SpecFloat Floats.FloatOps.
From stdpp Require Import base tactics option list numbers.

Local Open Scope Z_scope.

(** ** Machine integers *)

Module SizeT.

Definition modulus : Z := 2 ^ 64.
Definition SIZE_MAX : Z := modulus - 1.
Definition INT_MAX : Z := 2 ^ 31 - 1.

(** [std::vector<size_t>::max_size()]: [PTRDIFF_MAX / sizeof(size_t)]. *)
Definition MAX_SIZE : Z := 2 ^ 60 - 1.

(** Every [size_t] operation is taken modulo [2^64]. *)
Definition wrap (z : Z) : Z := z mod modulus.

Definition in_range (z : Z) : Prop := 0 <= z <= SIZE_MAX.

(** The conversion of a C++ [bool] to an integer, as in [n += (v == 0)]. *)
Definition of_bool (b : bool) : Z := if b then 1 else 0.

End SizeT.
Import SizeT.

(** ** Results of executions *)

Inductive Undefined : Type :=
| OutOfBounds
| SignedOverflow
| DivisionByZero.

(** The exceptions of the standard library that the program can raise;
    it catches none. *)
Inductive Exception : Type :=
| LengthError.

Inductive result (A : Type) : Type :=
| Ok (a : A)
| UB (u : Undefined)
| Throw (e : Exception).
Arguments Ok {A} a.
Arguments UB {A} u.
Arguments Throw {A} e.

Definition rbind {A B : Type} (r : result A) (k : A → result B) : result B :=
  match r with
  | Ok a => k a
  | UB u => UB u
  | Throw e => Throw e
  end.

Notation "x ←! r ; k" := (rbind r (fun x => k))
  (at level 20, r at level 100, k at level 200, right associativity,
   format "x  ←!  r ;  '/' k").
Notation "' p ←! r ; k" := (rbind r (fun x => match x with p => k end))
  (at level 20, p pattern, r at level 100, k at level 200, right associativity,
   format "' p  ←!  r ;  '/' k").

(** [v[i]] on a [std::vector<size_t>]: outside the vector the access is
    undefined. *)
Definition vec_at (v : list Z) (i : Z) : result Z :=
  match v !! Z.to_nat i with
  | Some x => Ok x
  | None => UB OutOfBounds
  end.

(** [v.size()]. *)
Definition vec_size (v : list Z) : Z := Z.of_nat (length v).

(** ** The source of randomness

    [nextRound] is a template over the generator type; the engine only
    ever calls [bin_uar_(generator)], where [bin_uar_] is a
    [std::uniform_int_distribution<size_t>] with parameters [(a, b)].  The
    standard library guarantees a value in the closed range [[a, b]]. *)

Class UniformIntDistribution (G : Type) : Type := {
  draw : Z * Z → G → Z * G;
  draw_in_range : ∀ a b g, a <= b → a <= (draw (a, b) g).1 <= b
}.

(** A generator that replays a script of numbers, clamped into the range
    of the distribution; an exhausted script yields the lower bound. *)
Definition scripted_draw (ab : Z * Z) (g : list Z) : Z * list Z :=
  match g with
  | [] => (ab.1, [])
  | x :: g' => (Z.max ab.1 (Z.min ab.2 x), g')
  end.

(** ** The engine *)

(** The data members of [class RepeatedBallsIntoBins]. *)
Record RepeatedBallsIntoBins : Type := mkRBB {
  load_vector_ : list Z;
  num_empty_bins_ : Z;
  max_load_ : Z;
  bin_uar_ : Z * Z
}.

(** The constructor: one scan of the vector for the two statistics, and
    the distribution over [(0, load_vector.size() - 1)]. *)
Definition RepeatedBallsIntoBins_init (load_vector : list Z) : RepeatedBallsIntoBins :=
  let scan := fold_left
    (fun (acc : Z * Z) (val : Z) =>
       (Z.max acc.1 val, wrap (acc.2 + of_bool (val =? 0))))
    load_vector (0, 0) in
  {| load_vector_ := load_vector;
     max_load_ := scan.1;
     num_empty_bins_ := scan.2;
     bin_uar_ := (0, wrap (vec_size load_vector - 1)) |}.

(** The body of the first loop of [nextRound], at index [i]. *)
Definition phase1_body (i : Z) (s : RepeatedBallsIntoBins) : result RepeatedBallsIntoBins :=
  x ←! vec_at (load_vector_ s) i;
  let lv := if 0 <? x then <[Z.to_nat i := wrap (x - 1)]> (load_vector_ s)
            else load_vector_ s in
  y ←! vec_at lv i;
  Ok {| load_vector_ := lv;
        max_load_ := Z.max (max_load_ s) y;
        num_empty_bins_ := wrap (num_empty_bins_ s + of_bool (y =? 0));
        bin_uar_ := bin_uar_ s |}.

(** [for (size_t i = 0; i < n; ++i)]: [iters] is the number of iterations
    left, [n - i]. *)
Fixpoint phase1_loop (iters : nat) (i : Z) (s : RepeatedBallsIntoBins)
  : result RepeatedBallsIntoBins :=
  match iters with
  | O => Ok s
  | S iters' =>
      s' ←! phase1_body i s;
      phase1_loop iters' (wrap (i + 1)) s'
  end.

Section Engine.
Context {G : Type} `{UniformIntDistribution G}.

(** The body of the second loop of [nextRound]. *)
Definition phase2_body (s : RepeatedBallsIntoBins) (g : G)
  : result (RepeatedBallsIntoBins * G) :=
  let (i, g') := draw (bin_uar_ s) g in
  x ←! vec_at (load_vector_ s) i;
  let y := wrap (x + 1) in
  Ok ({| load_vector_ := <[Z.to_nat i := y]> (load_vector_ s);
         max_load_ := Z.max (max_load_ s) y;
         num_empty_bins_ := wrap (num_empty_bins_ s - of_bool (y =? 1));
         bin_uar_ := bin_uar_ s |}, g').

(** [for (int j = 0; j < balls_to_allocate; ++j)]: [iters] is the number
    of iterations left, [balls_to_allocate - j].  The counter is an
    [int]: incrementing it at [INT_MAX] is undefined. *)
Fixpoint phase2_loop (iters : nat) (j : Z) (s : RepeatedBallsIntoBins) (g : G)
  : result (RepeatedBallsIntoBins * G) :=
  match iters with
  | O => Ok (s, g)
  | S iters' =>
      '(s', g') ←! phase2_body s g;
      if j =? INT_MAX then UB SignedOverflow
      else phase2_loop iters' (j + 1) s' g'
  end.

Definition balls_to_allocate (s : RepeatedBallsIntoBins) : Z :=
  wrap (vec_size (load_vector_ s) - num_empty_bins_ s).

(** The state at the start of phase 1: both statistics reset. *)
Definition reset_stats (s : RepeatedBallsIntoBins) : RepeatedBallsIntoBins :=
  {| load_vector_ := load_vector_ s;
     max_load_ := 0;
     num_empty_bins_ := 0;
     bin_uar_ := bin_uar_ s |}.

Definition phase1 (s : RepeatedBallsIntoBins) : result RepeatedBallsIntoBins :=
  phase1_loop (length (load_vector_ s)) 0 (reset_stats s).

(** One round of the process. *)
Definition nextRound (s : RepeatedBallsIntoBins) (g : G)
  : result (RepeatedBallsIntoBins * G) :=
  let balls := balls_to_allocate s in
  s1 ←! phase1 s;
  phase2_loop (Z.to_nat balls) 0 s1 g.

Definition getMaxLoad (s : RepeatedBallsIntoBins) : Z := max_load_ s.
Definition getNumEmptyBins (s : RepeatedBallsIntoBins) : Z := num_empty_bins_ s.
Definition getLoadVector (s : RepeatedBallsIntoBins) : list Z := load_vector_ s.

(** [k] successive calls of [nextRound] on the same engine and generator. *)
Fixpoint rounds (k : nat) (s : RepeatedBallsIntoBins) (g : G)
  : result (RepeatedBallsIntoBins * G) :=
  match k with
  | O => Ok (s, g)
  | S k' =>
      '(s', g') ←! nextRound s g;
      rounds k' s' g'
  end.

End Engine.

(** ** The initial load vector *)

(** [for (size_t i = 0; i < rem; ++i) ++load_vector[i];]: [iters] is the
    number of iterations left, [rem - i]. *)
Fixpoint increment_loop (iters : nat) (i : Z) (load_vector : list Z)
  : result (list Z) :=
  match iters with
  | O => Ok load_vector
  | S iters' =>
      x ←! vec_at load_vector i;
      increment_loop iters' (wrap (i + 1))
        (<[Z.to_nat i := wrap (x + 1)]> load_vector)
  end.

(** Unsigned division by zero is undefined; on [size_t], [/] and [%] are
    the quotient and remainder of non-negative integers.  The constructor
    [std::vector<size_t>(num_bins, value)] throws [std::length_error] when
    [num_bins] exceeds [max_size()]. *)
Definition generate_uniform_vector (num_bins num_balls : Z) : result (list Z) :=
  if num_bins =? 0 then UB DivisionByZero
  else if MAX_SIZE <? num_bins then Throw LengthError
  else
    let load_vector := replicate (Z.to_nat num_bins) (num_balls / num_bins) in
    let rem := num_balls mod num_bins in
    increment_loop (Z.to_nat rem) 0 load_vector.

(** ** The experiments *)

(** [double(z)] for an integer [z]: the nearest binary64 number, ties to
    even.  The division of two [double]s is [PrimFloat.div]. *)
Definition to_double (z : Z) : float :=
  SF2Prim (binary_normalize prec emax z 0 false).

Section Experiments.
Context {G : Type} `{UniformIntDistribution G}.

(** [for (size_t round = 0; round < num_rounds; ++round)], with the two
    accumulators in [agg]. *)
Fixpoint round_loop (iters : nat) (rbb : RepeatedBallsIntoBins) (generator : G)
    (agg : Z * Z) : result (G * (Z * Z)) :=
  match iters with
  | O => Ok (generator, agg)
  | S iters' =>
      '(rbb', generator') ←! nextRound rbb generator;
      round_loop iters' rbb' generator'
        (wrap (agg.1 + getMaxLoad rbb'), wrap (agg.2 + getNumEmptyBins rbb'))
  end.

(** [for (size_t rep = 0; rep < num_repetitions; ++rep)]. *)
Fixpoint repetition_loop (iters : nat) (num_bins num_balls num_rounds : Z)
    (generator : G) (agg : Z * Z) : result (G * (Z * Z)) :=
  match iters with
  | O => Ok (generator, agg)
  | S iters' =>
      load_vector ←! generate_uniform_vector num_bins num_balls;
      '(generator', agg') ←!
        round_loop (Z.to_nat num_rounds) (RepeatedBallsIntoBins_init load_vector)
          generator agg;
      repetition_loop iters' num_bins num_balls num_rounds generator' agg'
  end.

(** The generator is a local [std::mt19937_64] in its default state; that
    state is the argument [generator]. *)
Definition run_experiments_for_n_and_m
    (num_bins num_balls num_rounds num_repetitions : Z) (generator : G)
  : result (float * float) :=
  '(_, agg) ←!
    repetition_loop (Z.to_nat num_repetitions) num_bins num_balls num_rounds
      generator (0, 0);
  let aggregate_max_loads := agg.1 in
  let aggregate_num_empty_bins := agg.2 in
  let avg_max_load :=
    (to_double aggregate_max_loads
     / to_double (wrap (num_rounds * num_repetitions)))%float in
  let avg_num_empty_bins :=
    (to_double aggregate_num_empty_bins
     / to_double (wrap (num_rounds * num_repetitions)))%float in
  Ok (avg_max_load, avg_num_empty_bins).

(** What [run_experiments] writes to [std::cout], one item per line. *)
Inductive output_line : Type :=
| Header (num_bins : Z)
| Point (scale_factor : Z) (value : float).

(** [for (size_t scale_factor = 1; scale_factor <= 52; scale_factor += 3)]. *)
Definition scale_factors : list Z :=
  map (fun k => 1 + 3 * Z.of_nat k) (seq 0 18).

(** The loop over the scale factors, filling the two collections. *)
Fixpoint sweep (factors : list Z) (num_bins num_rounds num_repetitions : Z)
    (generator : G)
    (avg_max_load_collection avg_num_empty_bin_collection : list (Z * float))
  : result (list (Z * float) * list (Z * float)) :=
  match factors with
  | [] => Ok (avg_max_load_collection, avg_num_empty_bin_collection)
  | scale_factor :: factors' =>
      let num_balls := wrap (scale_factor * num_bins) in
      '(avg_max_load, avg_num_empty_bins) ←!
        run_experiments_for_n_and_m num_bins num_balls num_rounds
          num_repetitions generator;
      sweep factors' num_bins num_rounds num_repetitions generator
        (avg_max_load_collection ++ [(scale_factor, avg_max_load)])
        (avg_num_empty_bin_collection ++ [(scale_factor, avg_num_empty_bins)])
  end.

(** The body of the loop over the bin counts: the header, the maximum
    loads, and the numbers of empty bins divided by [double(num_bins)]. *)
Definition report (num_bins num_rounds num_repetitions : Z) (generator : G)
  : result (list output_line) :=
  '(avg_max_load_collection, avg_num_empty_bin_collection) ←!
    sweep scale_factors num_bins num_rounds num_repetitions generator [] [];
  Ok (Header num_bins
      :: map (fun p : Z * float => Point p.1 p.2) avg_max_load_collection
      ++ map (fun p : Z * float => Point p.1 (p.2 / to_double num_bins)%float)
           avg_num_empty_bin_collection).

Fixpoint report_all (num_bins_all : list Z) (num_rounds num_repetitions : Z)
    (generator : G) : result (list output_line) :=
  match num_bins_all with
  | [] => Ok []
  | num_bins :: rest =>
      lines ←! report num_bins num_rounds num_repetitions generator;
      lines' ←! report_all rest num_rounds num_repetitions generator;
      Ok (lines ++ lines')
  end.

Definition run_experiments (num_repetitions : Z) (generator : G)
  : result (list output_line) :=
  let num_bins_all := [100; 1000; 10000] in
  let num_rounds := 1000000 in
  report_all num_bins_all num_rounds num_repetitions generator.

Definition main (generator : G) : result (list output_line) :=
  run_experiments 25 generator.

(** The experiment as the specification tells it: the list of the
    statistics read after every round, to be summed and averaged.  First
    the statistics read after each of [k] rounds of one engine. *)
Fixpoint observe_rounds (k : nat) (rbb : RepeatedBallsIntoBins) (generator : G)
  : result (list (Z * Z) * G) :=
  match k with
  | O => Ok ([], generator)
  | S k' =>
      '(rbb', generator') ←! nextRound rbb generator;
      '(obs, generator'') ←! observe_rounds k' rbb' generator';
      Ok ((getMaxLoad rbb', getNumEmptyBins rbb') :: obs, generator'')
  end.

(** The statistics read after every round of every repetition: each
    repetition runs a fresh engine on the generated vector and continues
    with the generator of the one before. *)
Fixpoint observe_repetitions (reps : nat) (num_bins num_balls num_rounds : Z)
    (generator : G) : result (list (Z * Z)) :=
  match reps with
  | O => Ok []
  | S reps' =>
      load_vector ←! generate_uniform_vector num_bins num_balls;
      '(obs, generator') ←!
        observe_rounds (Z.to_nat num_rounds)
          (RepeatedBallsIntoBins_init load_vector) generator;
      obs' ←! observe_repetitions reps' num_bins num_balls num_rounds generator';
      Ok (obs ++ obs')
  end.

End Experiments.

(** The sum of a list of statistics, as an integer. *)
Fixpoint sum_list_Z (l : list Z) : Z :=
  match l with
  | [] => 0
  | x :: l' => x + sum_list_Z l'
  end.

(** ** What the statistics are meant to be

    The quantities of the specification, computed from the load vector
    alone. *)

(** The largest entry ([0] for an empty vector, as in the constructor). *)
Fixpoint max_entry (v : list Z) : Z :=
  match v with
  | [] => 0
  | x :: v' => Z.max x (max_entry v')
  end.

(** [m] is an entry of [v] and no entry exceeds it. *)
Definition is_maximum (m : Z) (v : list Z) : Prop :=
  m ∈ v ∧ Forall (fun x => x <= m) v.

(** The number of indices [i] with [v[i] == 0]. *)
Fixpoint count_empty (v : list Z) : Z :=
  match v with
  | [] => 0
  | x :: v' => of_bool (x =? 0) + count_empty v'
  end.

(** The number of indices [i] with [v[i] != 0]. *)
Fixpoint count_nonempty (v : list Z) : Z :=
  match v with
  | [] => 0
  | x :: v' => of_bool (negb (x =? 0)) + count_nonempty v'
  end.

(** The number of balls in the system. *)
Fixpoint total_load (v : list Z) : Z :=
  match v with
  | [] => 0
  | x :: v' => x + total_load v'
  end.

(** Phase 1 on one bin: a ball leaves the bin if there is one. *)
Definition collect (x : Z) : Z := if 0 <? x then x - 1 else x.

(** The cached statistics agree with the load vector. *)
Definition consistent (s : RepeatedBallsIntoBins) : Prop :=
  max_load_ s = max_entry (load_vector_ s) ∧
  num_empty_bins_ s = count_empty (load_vector_ s).

(** A [std::vector<size_t>]: every entry is a [size_t], and so is the size. *)
Definition well_typed (v : list Z) : Prop :=
  Forall in_range v ∧ vec_size v <= SIZE_MAX.

(** The states in which no counter of [nextRound] leaves its type: the
    balls can be counted in a [size_t], the bins in an [int]. *)
Record engine_ok (s : RepeatedBallsIntoBins) : Prop := mk_engine_ok {
  ok_range : Forall in_range (load_vector_ s);
  ok_size : 1 <= vec_size (load_vector_ s) <= INT_MAX;
  ok_total : total_load (load_vector_ s) <= SIZE_MAX;
  ok_uar : bin_uar_ s = (0, vec_size (load_vector_ s) - 1);
  ok_stats : consistent s
}.

(** What the constructor fixes for the lifetime of the engine: a vector of
    at least one [size_t] and the distribution over its indices. *)
Record engine_shape (s : RepeatedBallsIntoBins) : Prop := mk_engine_shape {
  shape_typed : well_typed (load_vector_ s);
  shape_size : 1 <= vec_size (load_vector_ s);
  shape_uar : bin_uar_ s = (0, vec_size (load_vector_ s) - 1)
}.

(** What a round needs of its start state to run to its end: the
    empty-bin count, not the maximum, which is reset before it is read. *)
Record round_pre (s : RepeatedBallsIntoBins) : Prop := mk_round_pre {
  pre_range : Forall in_range (load_vector_ s);
  pre_size : 1 <= vec_size (load_vector_ s) <= INT_MAX;
  pre_uar : bin_uar_ s = (0, vec_size (load_vector_ s) - 1);
  pre_empty : num_empty_bins_ s = count_empty (load_vector_ s)
}.

(** The invariant of the second loop of [nextRound]: the statistics are
    those of the vector, and the balls still to come fit into a [size_t]
    together with those in the bins. *)
Record phase2_inv (s : RepeatedBallsIntoBins) (balls : Z) : Prop := mk_phase2_inv {
  p2_shape : engine_shape s;
  p2_total : total_load (load_vector_ s) + balls <= SIZE_MAX;
  p2_stats : consistent s
}.

(** A statistic pair read from an engine with [n] bins and [m] balls. *)
Definition stats_within (n m : Z) (p : Z * Z) : Prop :=
  0 <= p.1 <= m ∧ 0 <= p.2 <= n.

(** ** The draws of a round *)

Section Draws.
Context {G : Type} `{UniformIntDistribution G}.

(** The next [k] values of [bin_uar_(generator)] for a distribution with
    parameters [uar], and the generator after them. *)
Fixpoint drawn (k : nat) (uar : Z * Z) (g : G) : list Z * G :=
  match k with
  | O => ([], g)
  | S k' =>
      let (i, g') := draw uar g in
      let (l, g'') := drawn k' uar g' in
      (i :: l, g'')
  end.

End Draws.

(** How often the bin [i] is among the drawn indices. *)
Fixpoint occurrences (i : nat) (draws : list Z) : Z :=
  match draws with
  | [] => 0
  | d :: draws' => of_bool (Nat.eqb (Z.to_nat d) i) + occurrences i draws'
  end.

(** The number of bins that hold at most one ball. *)
Fixpoint count_at_most_one (v : list Z) : Z :=
  match v with
  | [] => 0
  | x :: v' => of_bool (x <=? 1) + count_at_most_one v'
  end.

(** ** Arithmetic of [size_t] *)

Lemma wrap_small z : in_range z → wrap z = z.
Proof. unfold in_range, wrap, SIZE_MAX. intros Hz. apply Z.mod_small. lia. Qed.

Lemma wrap_in_range z : in_range (wrap z).
Proof.
  unfold in_range, wrap, SIZE_MAX.
  pose proof (Z.mod_pos_bound z modulus eq_refl). lia.
Qed.

Lemma INT_MAX_lt_SIZE_MAX : INT_MAX < SIZE_MAX.
Proof. reflexivity. Qed.

Lemma of_bool_bounds b : 0 <= of_bool b <= 1.
Proof. destruct b; simpl; lia. Qed.

(** ** The list functions *)

Lemma max_entry_nonneg v : 0 <= max_entry v.
Proof. induction v as [|x v IH]; simpl; lia. Qed.

Lemma max_entry_upper v : Forall (fun x => x <= max_entry v) v.
Proof.
  induction v as [|x v IH]; simpl; constructor; [lia|].
  eapply Forall_impl; [|exact IH]. simpl. intros y Hy. lia.
Qed.

Lemma max_entry_elem v : v ≠ [] → Forall (fun x => 0 <= x) v → max_entry v ∈ v.
Proof.
  induction v as [|x v IH]; [done|]. intros _ Hnn.
  inversion Hnn as [|? ? Hx Hv]; subst. simpl.
  destruct v as [|y v].
  - simpl. rewrite Z.max_l by lia. left.
  - destruct (Z.max_spec x (max_entry (y :: v))) as [[_ ->]|[_ ->]].
    + right. by apply IH.
    + left.
Qed.

Lemma max_entry_is_maximum v :
  v ≠ [] → Forall in_range v → is_maximum (max_entry v) v.
Proof.
  intros Hne Hr. split; [|apply max_entry_upper].
  apply max_entry_elem; [done|].
  eapply Forall_impl; [|exact Hr]. intros x [? ?]. done.
Qed.

Lemma is_maximum_unique m m' v : is_maximum m v → is_maximum m' v → m = m'.
Proof.
  intros [Hm Hub] [Hm' Hub'].
  apply list_elem_of_lookup in Hm as [i Hi], Hm' as [i' Hi'].
  pose proof (Forall_lookup_1 _ _ _ _ Hub Hi').
  pose proof (Forall_lookup_1 _ _ _ _ Hub' Hi). simpl in *. lia.
Qed.

Lemma total_load_app u v : total_load (u ++ v) = total_load u + total_load v.
Proof. induction u as [|x u IH]; simpl; [done|]. rewrite IH. lia. Qed.

Lemma count_empty_bounds v : 0 <= count_empty v <= vec_size v.
Proof.
  unfold vec_size. induction v as [|x v IH]; simpl length; simpl count_empty.
  - lia.
  - pose proof (of_bool_bounds (x =? 0)). lia.
Qed.

Lemma total_load_nonneg v : Forall in_range v → 0 <= total_load v.
Proof.
  induction 1 as [|x v [Hx _] _ IH]; simpl; lia.
Qed.

Lemma lookup_le_total (v : list Z) i x :
  Forall in_range v → v !! i = Some x → x <= total_load v.
Proof.
  intros Hr. revert i. induction Hr as [|y v [Hy _] Hv IH]; intros [|i] Hi;
    simpl in *; simplify_eq.
  - pose proof (total_load_nonneg v Hv). lia.
  - specialize (IH _ Hi). lia.
Qed.

Lemma total_load_insert (v : list Z) i x y :
  v !! i = Some x → total_load (<[i:=y]> v) = total_load v - x + y.
Proof.
  revert i. induction v as [|z v IH]; intros [|i] Hi; simpl in *; simplify_eq.
  - lia.
  - rewrite (IH _ Hi). lia.
Qed.

Lemma max_entry_insert (v : list Z) i x y :
  v !! i = Some x → x <= y →
  max_entry (<[i:=y]> v) = Z.max (max_entry v) y.
Proof.
  revert i. induction v as [|z v IH]; intros [|i] Hi Hxy; simpl in *; simplify_eq.
  - lia.
  - rewrite (IH _ Hi Hxy). lia.
Qed.

Lemma count_empty_insert (v : list Z) i x y :
  v !! i = Some x →
  count_empty (<[i:=y]> v) = count_empty v - of_bool (x =? 0) + of_bool (y =? 0).
Proof.
  revert i. induction v as [|z v IH]; intros [|i] Hi; simpl in *; simplify_eq.
  - lia.
  - rewrite (IH _ Hi). lia.
Qed.

Lemma count_empty_lookup (v : list Z) i :
  v !! i = Some 0 → 1 <= count_empty v.
Proof.
  revert i. induction v as [|z v IH]; intros [|i] Hi; simpl in *; simplify_eq.
  - pose proof (count_empty_bounds v). simpl. lia.
  - specialize (IH _ Hi). pose proof (of_bool_bounds (z =? 0)). lia.
Qed.

Lemma collect_in_range x : in_range x → in_range (collect x).
Proof. unfold in_range, collect. intros Hx. destruct (Z.ltb_spec 0 x); lia. Qed.

Lemma collect_nonneg x : 0 <= x → 0 <= collect x ∧ (x = 0 → collect x = 0) ∧ (0 < x → collect x = x - 1).
Proof. unfold collect. intros Hx. destruct (Z.ltb_spec 0 x); lia. Qed.

(** Phase 1 removes exactly one ball per non-empty bin. *)
Lemma total_load_collect v :
  Forall in_range v →
  total_load (map collect v) = total_load v - (vec_size v - count_empty v).
Proof.
  unfold vec_size.
  induction 1 as [|x v [Hx _] _ IH]; simpl length; simpl; [lia|].
  rewrite IH. unfold collect, of_bool.
  destruct (Z.ltb_spec 0 x), (Z.eqb_spec x 0); lia.
Qed.

(** ** The constructor *)

Lemma init_scan v m e :
  0 <= m → 0 <= e → e + vec_size v <= SIZE_MAX →
  fold_left
    (fun (acc : Z * Z) (val : Z) =>
       (Z.max acc.1 val, wrap (acc.2 + of_bool (val =? 0))))
    v (m, e)
  = (Z.max m (max_entry v), e + count_empty v).
Proof.
  unfold vec_size. revert m e.
  induction v as [|x v IH]; intros m e Hm He Hsz; simpl length in *; simpl.
  - f_equal; lia.
  - pose proof (of_bool_bounds (x =? 0)).
    pose proof (count_empty_bounds v) as Hc. unfold vec_size in Hc.
    rewrite wrap_small by (unfold in_range; lia).
    rewrite IH by lia. f_equal; lia.
Qed.

Lemma init_load_vector v : load_vector_ (RepeatedBallsIntoBins_init v) = v.
Proof. reflexivity. Qed.

Lemma init_consistent v :
  vec_size v <= SIZE_MAX → consistent (RepeatedBallsIntoBins_init v).
Proof.
  intros Hsz. unfold consistent, RepeatedBallsIntoBins_init. simpl.
  rewrite init_scan by lia. simpl.
  pose proof (max_entry_nonneg v). split; lia.
Qed.

Lemma init_bin_uar v :
  1 <= vec_size v <= SIZE_MAX →
  bin_uar_ (RepeatedBallsIntoBins_init v) = (0, vec_size v - 1).
Proof.
  intros Hsz. unfold RepeatedBallsIntoBins_init. simpl.
  rewrite wrap_small by (unfold in_range; lia). done.
Qed.

Lemma init_engine_ok v :
  Forall in_range v → 1 <= vec_size v <= INT_MAX → total_load v <= SIZE_MAX →
  engine_ok (RepeatedBallsIntoBins_init v).
Proof.
  intros Hr Hsz Ht. pose proof INT_MAX_lt_SIZE_MAX.
  split; rewrite ?init_load_vector; try done.
  - apply init_bin_uar. lia.
  - apply init_consistent. lia.
Qed.

(** ** Phase 1 *)

Lemma vec_at_middle (u v : list Z) x :
  vec_at (u ++ x :: v) (Z.of_nat (length u)) = Ok x.
Proof.
  unfold vec_at. rewrite Nat2Z.id.
  by rewrite list_lookup_middle.
Qed.

Lemma insert_middle (u v : list Z) x y :
  <[length u := y]> (u ++ x :: v) = u ++ y :: v.
Proof.
  rewrite insert_app_r_alt by lia. by rewrite Nat.sub_diag.
Qed.

Lemma phase1_body_middle u v x s :
  load_vector_ s = u ++ x :: v → in_range x →
  phase1_body (Z.of_nat (length u)) s
  = Ok {| load_vector_ := u ++ collect x :: v;
          max_load_ := Z.max (max_load_ s) (collect x);
          num_empty_bins_ := wrap (num_empty_bins_ s + of_bool (collect x =? 0));
          bin_uar_ := bin_uar_ s |}.
Proof.
  intros Hlv Hx. unfold phase1_body. rewrite Hlv, vec_at_middle. simpl.
  unfold collect. rewrite Nat2Z.id. destruct (Z.ltb_spec 0 x) as [Hpos|Hzero].
  - rewrite insert_middle, vec_at_middle. simpl.
    rewrite (wrap_small (x - 1)) by (unfold in_range in *; lia). done.
  - rewrite vec_at_middle. done.
Qed.

(** The loop from index [length u] on rewrites the rest of the vector with
    [collect] and folds the two statistics over the rewritten entries. *)
Lemma phase1_loop_spec v : ∀ u s,
  load_vector_ s = u ++ v →
  Forall in_range v →
  vec_size (u ++ v) <= SIZE_MAX →
  0 <= max_load_ s →
  0 <= num_empty_bins_ s → num_empty_bins_ s + vec_size v <= SIZE_MAX →
  phase1_loop (length v) (Z.of_nat (length u)) s
  = Ok {| load_vector_ := u ++ map collect v;
          max_load_ := Z.max (max_load_ s) (max_entry (map collect v));
          num_empty_bins_ := num_empty_bins_ s + count_empty (map collect v);
          bin_uar_ := bin_uar_ s |}.
Proof.
  unfold vec_size.
  induction v as [|x v IH]; intros u s Hlv Hr Hsz Hm He Hev; simpl length in *.
  - simpl. rewrite Z.max_l, Z.add_0_r by done. destruct s; simpl in *. by subst.
  - inversion Hr as [|? ? Hx Hv]; subst.
    rewrite length_app in Hsz. simpl length in Hsz.
    cbn [phase1_loop]. rewrite (phase1_body_middle u v x s Hlv Hx). cbn [rbind].
    pose proof (of_bool_bounds (collect x =? 0)) as Hb.
    pose proof (count_empty_bounds (map collect v)) as Hc.
    unfold vec_size in Hc. rewrite length_map in Hc.
    rewrite (wrap_small (Z.of_nat (length u) + 1)) by (unfold in_range; lia).
    rewrite (wrap_small (num_empty_bins_ s + _)) by (unfold in_range; lia).
    replace (Z.of_nat (length u) + 1) with (Z.of_nat (length (u ++ [collect x])))
      by (rewrite length_app; simpl; lia).
    rewrite IH; simpl; rewrite <- ?app_assoc; simpl; try done; try lia.
    + f_equal. f_equal; lia.
    + rewrite !length_app. simpl. lia.
Qed.

Lemma phase1_spec s :
  well_typed (load_vector_ s) →
  phase1 s
  = Ok {| load_vector_ := map collect (load_vector_ s);
          max_load_ := max_entry (map collect (load_vector_ s));
          num_empty_bins_ := count_empty (map collect (load_vector_ s));
          bin_uar_ := bin_uar_ s |}.
Proof.
  intros [Hr Hsz]. unfold phase1.
  pose proof (phase1_loop_spec (load_vector_ s) [] (reset_stats s)) as Hl.
  change (Z.of_nat (length [])) with 0 in Hl.
  rewrite Hl; simpl; try done; try lia.
  f_equal. f_equal. pose proof (max_entry_nonneg (map collect (load_vector_ s))). lia.
Qed.

(** ** Phase 2 *)


Lemma engine_ok_shape s : engine_ok s → engine_shape s.
Proof.
  intros [Hr Hsz Ht Hu Hc]. pose proof INT_MAX_lt_SIZE_MAX.
  repeat split; try done; lia.
Qed.

Lemma init_engine_shape v :
  well_typed v → v ≠ [] → engine_shape (RepeatedBallsIntoBins_init v).
Proof.
  intros [Hr Hsz] Hne.
  assert (1 <= vec_size v) by (unfold vec_size; destruct v; [done|simpl; lia]).
  split; rewrite ?init_load_vector; try done.
  apply init_bin_uar. lia.
Qed.

Section Phase2.
Context {G : Type} `{UniformIntDistribution G}.

(** One increment: the drawn index is inside the vector. *)
Lemma phase2_body_spec s g :
  engine_shape s →
  ∃ (i : nat) (x : Z),
    load_vector_ s !! i = Some x ∧ in_range x ∧
    phase2_body s g
    = Ok ({| load_vector_ := <[i := wrap (x + 1)]> (load_vector_ s);
             max_load_ := Z.max (max_load_ s) (wrap (x + 1));
             num_empty_bins_ :=
               wrap (num_empty_bins_ s - of_bool (wrap (x + 1) =? 1));
             bin_uar_ := bin_uar_ s |}, (draw (bin_uar_ s) g).2).
Proof.
  intros [[Hr Hmax] Hsz Hu]. unfold phase2_body.
  pose proof (draw_in_range 0 (vec_size (load_vector_ s) - 1) g) as Hd.
  rewrite Hu. destruct (draw _ g) as [i g'] eqn:Hdraw. simpl in Hd.
  assert (0 <= i <= vec_size (load_vector_ s) - 1) as Hi by (apply Hd; lia).
  unfold vec_size in Hi.
  destruct (lookup_lt_is_Some_2 (load_vector_ s) (Z.to_nat i)) as [x Hx]; [lia|].
  exists (Z.to_nat i), x. split; [done|].
  split; [by eapply Forall_lookup_1|].
  unfold vec_at. rewrite Hx. done.
Qed.

Lemma phase2_body_shape s g s' g' :
  engine_shape s → phase2_body s g = Ok (s', g') →
  engine_shape s' ∧ length (load_vector_ s') = length (load_vector_ s).
Proof.
  intros Hs Hb. destruct (phase2_body_spec s g Hs) as (i & x & Hx & Hr & Heq).
  rewrite Heq in Hb. injection Hb as <- <-.
  destruct Hs as [[Hrs Hmax] Hsz Hu].
  split; [|apply length_insert].
  split; simpl; unfold well_typed, vec_size in *; rewrite ?length_insert; try done.
  split; [|done]. apply Forall_insert; [done|]. apply wrap_in_range.
Qed.

(** The loop either runs to its end inside the vector, or its [int]
    counter overflows. *)
Lemma phase2_loop_shape iters : ∀ j s g,
  engine_shape s →
  phase2_loop iters j s g = UB SignedOverflow ∨
  ∃ s' g', phase2_loop iters j s g = Ok (s', g') ∧
           engine_shape s' ∧ length (load_vector_ s') = length (load_vector_ s).
Proof.
  induction iters as [|iters IH]; intros j s g Hs; simpl.
  - right. by exists s, g.
  - destruct (phase2_body_spec s g Hs) as (i & x & Hx & Hr & Heq).
    destruct (phase2_body_shape _ _ _ _ Hs Heq) as [Hs' Hlen].
    rewrite Heq. simpl. destruct (j =? INT_MAX); [by left|].
    destruct (IH (j + 1) _ (draw (bin_uar_ s) g).2 Hs') as [->|(s'' & g'' & -> & ? & ?)].
    + by left.
    + right. exists s'', g''. split; [done|]. split; [done|]. congruence.
Qed.


Lemma phase2_body_inv s g balls :
  phase2_inv s balls → 1 <= balls →
  ∃ s' g', phase2_body s g = Ok (s', g') ∧ phase2_inv s' (balls - 1) ∧
           total_load (load_vector_ s') = total_load (load_vector_ s) + 1 ∧
           length (load_vector_ s') = length (load_vector_ s).
Proof.
  intros [Hs Ht [Hm He]] Hb.
  destruct (phase2_body_spec s g Hs) as (i & x & Hx & Hr & Heq).
  destruct (phase2_body_shape _ _ _ _ Hs Heq) as [Hs' Hlen].
  eexists _, _. split; [exact Heq|]. simpl in *.
  pose proof (lookup_le_total _ _ _ (proj1 (shape_typed _ Hs)) Hx) as Hxt.
  assert (wrap (x + 1) = x + 1) as Hw
    by (apply wrap_small; unfold in_range in *; lia).
  rewrite Hw in *.
  split; [|split; [|done]].
  - split; simpl; [done| |].
    + rewrite (total_load_insert _ _ _ _ Hx). lia.
    + split; simpl.
      * rewrite (max_entry_insert _ _ x) by (done || lia). by rewrite Hm.
      * rewrite (count_empty_insert _ _ _ _ Hx), He.
        pose proof (count_empty_bounds (load_vector_ s)) as Hc.
        pose proof (proj2 (shape_typed _ Hs)) as Hmax.
        unfold of_bool, in_range in *.
        destruct (Z.eqb_spec (x + 1) 1), (Z.eqb_spec x 0), (Z.eqb_spec (x + 1) 0);
          try lia.
        -- subst x. pose proof (count_empty_lookup _ _ Hx).
           rewrite wrap_small by (unfold in_range; lia). lia.
        -- rewrite wrap_small by (unfold in_range; lia). lia.
  - rewrite (total_load_insert _ _ _ _ Hx). lia.
Qed.

Lemma phase2_loop_inv iters : ∀ j s g,
  phase2_inv s (Z.of_nat iters) → 0 <= j → j + Z.of_nat iters <= INT_MAX →
  ∃ s' g', phase2_loop iters j s g = Ok (s', g') ∧ phase2_inv s' 0 ∧
           total_load (load_vector_ s')
           = total_load (load_vector_ s) + Z.of_nat iters ∧
           length (load_vector_ s') = length (load_vector_ s).
Proof.
  induction iters as [|iters IH]; intros j s g Hinv Hj Hjmax.
  - exists s, g. simpl. repeat split; try done; try apply Hinv. lia.
  - destruct (phase2_body_inv s g _ Hinv) as (s1 & g1 & Heq & Hinv1 & Ht1 & Hl1);
      [lia|].
    replace (Z.of_nat (S iters) - 1) with (Z.of_nat iters) in Hinv1 by lia.
    destruct (IH (j + 1) s1 g1 Hinv1) as (s2 & g2 & Heq2 & Hinv2 & Ht2 & Hl2);
      [lia..|].
    exists s2, g2. cbn [phase2_loop]. rewrite Heq. cbn [rbind].
    destruct (Z.eqb_spec j INT_MAX); [lia|].
    split; [done|]. split; [done|]. split; [lia|congruence].
Qed.

(** Whatever wraps, each increment adds one to the sum modulo [2^64]. *)
Lemma phase2_body_total s g s' g' :
  engine_shape s → phase2_body s g = Ok (s', g') →
  wrap (total_load (load_vector_ s')) = wrap (total_load (load_vector_ s) + 1).
Proof.
  intros Hs Hb. destruct (phase2_body_spec s g Hs) as (i & x & Hx & Hr & Heq).
  rewrite Heq in Hb. simplify_eq. simpl.
  rewrite (total_load_insert _ _ _ _ Hx). unfold wrap.
  rewrite Zplus_mod_idemp_r. f_equal. lia.
Qed.

(** While the [int] counter stays below [INT_MAX] the loop runs to its
    end. *)
Lemma phase2_loop_completes iters : ∀ j s g,
  engine_shape s → 0 <= j → j + Z.of_nat iters <= INT_MAX →
  ∃ s' g', phase2_loop iters j s g = Ok (s', g') ∧ engine_shape s' ∧
           wrap (total_load (load_vector_ s'))
           = wrap (total_load (load_vector_ s) + Z.of_nat iters).
Proof.
  induction iters as [|iters IH]; intros j s g Hs Hj Hjmax.
  - exists s, g. simpl. by rewrite Z.add_0_r.
  - destruct (phase2_body_spec s g Hs) as (i & x & Hx & Hr & Heq).
    destruct (phase2_body_shape _ _ _ _ Hs Heq) as [Hs1 _].
    pose proof (phase2_body_total _ _ _ _ Hs Heq) as Ht1.
    destruct (IH (j + 1) _ (draw (bin_uar_ s) g).2 Hs1) as (s2 & g2 & Heq2 & Hs2 & Ht2);
      [lia..|].
    exists s2, g2. cbn [phase2_loop]. rewrite Heq. cbn [rbind].
    destruct (Z.eqb_spec j INT_MAX); [lia|].
    split; [done|]. split; [done|]. rewrite Ht2.
    unfold wrap in *. rewrite <- Zplus_mod_idemp_l, Ht1, Zplus_mod_idemp_l.
    f_equal. lia.
Qed.

(** ** One round *)


Lemma engine_ok_round_pre s : engine_ok s → round_pre s.
Proof. intros [Hr Hsz Ht Hu [Hm He]]. by split. Qed.

Lemma round_pre_well_typed s : round_pre s → well_typed (load_vector_ s).
Proof.
  intros [Hr Hsz _ _]. pose proof INT_MAX_lt_SIZE_MAX. split; [done|lia].
Qed.

Lemma round_pre_shape s : round_pre s → engine_shape s.
Proof.
  intros Hpre. pose proof (round_pre_well_typed s Hpre).
  destruct Hpre as [Hr Hsz Hu _]. split; [done|lia|done].
Qed.

Lemma round_pre_balls s :
  round_pre s →
  balls_to_allocate s = vec_size (load_vector_ s) - count_empty (load_vector_ s).
Proof.
  intros [Hr Hsz _ He]. pose proof INT_MAX_lt_SIZE_MAX.
  pose proof (count_empty_bounds (load_vector_ s)).
  unfold balls_to_allocate. rewrite He. apply wrap_small. unfold in_range. lia.
Qed.

(** After phase 1 of a round from [round_pre] the invariant of the second
    loop holds for the balls that were collected. *)
Lemma phase1_establishes_inv s s1 :
  round_pre s → total_load (load_vector_ s) <= SIZE_MAX → phase1 s = Ok s1 →
  phase2_inv s1 (balls_to_allocate s) ∧
  load_vector_ s1 = map collect (load_vector_ s).
Proof.
  intros Hpre Ht Hp1. pose proof (round_pre_well_typed s Hpre) as Hty.
  rewrite (round_pre_balls s Hpre).
  rewrite (phase1_spec s Hty) in Hp1. injection Hp1 as <-.
  destruct Hpre as [Hr Hsz Hu He]. destruct Hty as [_ Hmax].
  pose proof (total_load_collect _ Hr) as Hcol.
  split; [|done].
  split; [split| |split]; simpl; unfold vec_size in *; rewrite ?length_map;
    try done; try lia.
  split; [|unfold vec_size; rewrite length_map; lia].
  apply Forall_map. eapply Forall_impl; [|exact Hr].
  intros x. apply collect_in_range.
Qed.

(** From such a state with at most [SIZE_MAX] balls a round runs to its
    end, establishes the whole invariant and keeps the number of balls. *)
Lemma nextRound_round_pre s g :
  round_pre s → total_load (load_vector_ s) <= SIZE_MAX →
  ∃ s' g', nextRound s g = Ok (s', g') ∧ engine_ok s' ∧
           total_load (load_vector_ s') = total_load (load_vector_ s) ∧
           length (load_vector_ s') = length (load_vector_ s).
Proof.
  intros Hpre Ht. pose proof (round_pre_well_typed s Hpre) as Hty.
  pose proof (phase1_spec s Hty) as Hp1.
  destruct (phase1_establishes_inv s _ Hpre Ht Hp1) as [Hinv Hlv].
  pose proof (round_pre_balls s Hpre) as Hballs.
  destruct Hpre as [Hr Hsz Hu He].
  pose proof (count_empty_bounds (load_vector_ s)) as Hc.
  pose proof (total_load_collect _ Hr) as Hcol.
  unfold nextRound. rewrite Hp1. cbn [rbind].
  set (s1 := {| load_vector_ := map collect (load_vector_ s) |}) in *.
  rewrite <- (Z2Nat.id (balls_to_allocate s)) in Hinv by lia.
  destruct (phase2_loop_inv _ 0 s1 g Hinv) as (s2 & g2 & Heq & Hinv2 & Ht2 & Hl2);
    [lia|lia|].
  exists s2, g2. split; [done|].
  rewrite Z2Nat.id in Ht2 by lia. simpl in Ht2, Hl2. rewrite length_map in Hl2.
  split; [|split; [lia|done]].
  destruct Hinv2 as [[[Hr2 _] _ Hu2] _ Hc2].
  split; try done; unfold vec_size in *; rewrite ?Hl2; lia.
Qed.

(** Without the bound on the balls a round still runs to its end, and the
    sum of the loads is kept modulo [2^64]. *)
Lemma nextRound_round_pre_modular s g :
  round_pre s →
  ∃ s' g', nextRound s g = Ok (s', g') ∧
           wrap (total_load (load_vector_ s'))
           = wrap (total_load (load_vector_ s)).
Proof.
  intros Hpre. pose proof (round_pre_well_typed s Hpre) as Hty.
  pose proof (round_pre_balls s Hpre) as Hballs.
  pose proof (round_pre_shape s Hpre) as Hs.
  pose proof (count_empty_bounds (load_vector_ s)) as Hc.
  pose proof (total_load_collect _ (pre_range s Hpre)) as Hcol.
  pose proof (pre_size s Hpre) as Hsz.
  unfold nextRound. rewrite (phase1_spec s Hty). cbn [rbind].
  set (s1 := {| load_vector_ := map collect (load_vector_ s) |}).
  assert (engine_shape s1) as Hs1.
  { destruct Hs as [[Hr Hmax] Hsz1 Hu].
    split; simpl; unfold well_typed, vec_size in *; rewrite ?length_map; try done.
    split; [|done]. apply Forall_map. eapply Forall_impl; [|exact Hr].
    intros x. apply collect_in_range. }
  destruct (phase2_loop_completes (Z.to_nat (balls_to_allocate s)) 0 s1 g Hs1)
    as (s' & g' & Heq & _ & Ht); [lia|lia|].
  exists s', g'. split; [done|]. rewrite Ht. simpl. f_equal. lia.
Qed.

Lemma nextRound_engine_ok s g :
  engine_ok s →
  ∃ s' g', nextRound s g = Ok (s', g') ∧ engine_ok s' ∧
           total_load (load_vector_ s') = total_load (load_vector_ s) ∧
           length (load_vector_ s') = length (load_vector_ s).
Proof.
  intros Hok. apply nextRound_round_pre; [by apply engine_ok_round_pre|].
  apply Hok.
Qed.

Lemma rounds_engine_ok k : ∀ s g,
  engine_ok s →
  ∃ s' g', rounds k s g = Ok (s', g') ∧ engine_ok s' ∧
           total_load (load_vector_ s') = total_load (load_vector_ s) ∧
           length (load_vector_ s') = length (load_vector_ s).
Proof.
  induction k as [|k IH]; intros s g Hok.
  - by exists s, g.
  - destruct (nextRound_engine_ok s g Hok) as (s1 & g1 & Heq & Hok1 & Ht1 & Hl1).
    destruct (IH s1 g1 Hok1) as (s2 & g2 & Heq2 & Hok2 & Ht2 & Hl2).
    exists s2, g2. cbn [rounds]. rewrite Heq. cbn [rbind].
    split; [done|]. split; [done|]. split; congruence.
Qed.

End Phase2.

(** ** What a round never touches

    These hold for every state, including those where counters wrap:
    the vector keeps its length and the distribution its parameters. *)

Lemma phase1_body_frame i s s' :
  phase1_body i s = Ok s' →
  length (load_vector_ s') = length (load_vector_ s) ∧ bin_uar_ s' = bin_uar_ s.
Proof.
  unfold phase1_body. destruct (vec_at (load_vector_ s) i) as [x| |]; [|done..].
  cbn [rbind]. destruct (vec_at _ i) as [y| |]; [|done..].
  cbn [rbind]. intros ?; simplify_eq. simpl. split; [|done].
  destruct (0 <? x); [apply length_insert|done].
Qed.

Lemma phase1_loop_frame iters : ∀ i s s',
  phase1_loop iters i s = Ok s' →
  length (load_vector_ s') = length (load_vector_ s) ∧ bin_uar_ s' = bin_uar_ s.
Proof.
  induction iters as [|iters IH]; intros i s s'; simpl.
  - intros ?; by simplify_eq.
  - destruct (phase1_body i s) as [s1| |] eqn:Hb; [|done..]. cbn [rbind]. intros Hl.
    destruct (phase1_body_frame _ _ _ Hb) as [? ?].
    destruct (IH _ _ _ Hl) as [? ?]. split; congruence.
Qed.

Section Frame.
Context {G : Type} `{UniformIntDistribution G}.

Lemma phase2_body_frame s (g : G) s' g' :
  phase2_body s g = Ok (s', g') →
  length (load_vector_ s') = length (load_vector_ s) ∧ bin_uar_ s' = bin_uar_ s.
Proof.
  unfold phase2_body. destruct (draw (bin_uar_ s) g) as [i g1].
  destruct (vec_at (load_vector_ s) i) as [x| |]; [|done..].
  cbn [rbind]. intros ?; simplify_eq. simpl. split; [apply length_insert|done].
Qed.

Lemma phase2_loop_frame iters : ∀ j s (g : G) s' g',
  phase2_loop iters j s g = Ok (s', g') →
  length (load_vector_ s') = length (load_vector_ s) ∧ bin_uar_ s' = bin_uar_ s.
Proof.
  induction iters as [|iters IH]; intros j s g s' g'; simpl.
  - intros ?; by simplify_eq.
  - destruct (phase2_body s g) as [[s1 g1]| |] eqn:Hb; [|done..]. cbn [rbind].
    destruct (j =? INT_MAX); [done|]. intros Hl.
    destruct (phase2_body_frame _ _ _ _ Hb) as [? ?].
    destruct (IH _ _ _ _ _ Hl) as [? ?]. split; congruence.
Qed.

(** Every entry written by the second loop is a [size_t]. *)
Lemma phase2_loop_range iters : ∀ j s (g : G) s' g',
  Forall in_range (load_vector_ s) →
  phase2_loop iters j s g = Ok (s', g') →
  Forall in_range (load_vector_ s').
Proof.
  induction iters as [|iters IH]; intros j s g s' g' Hr; simpl.
  - intros ?; by simplify_eq.
  - unfold phase2_body. destruct (draw (bin_uar_ s) g) as [i g1].
    destruct (vec_at (load_vector_ s) i) as [x| |]; [|done..]. cbn [rbind].
    destruct (j =? INT_MAX); [done|]. apply IH. simpl.
    apply Forall_insert; [done|apply wrap_in_range].
Qed.

Lemma nextRound_frame s (g : G) s' g' :
  nextRound s g = Ok (s', g') →
  length (load_vector_ s') = length (load_vector_ s) ∧ bin_uar_ s' = bin_uar_ s.
Proof.
  unfold nextRound, phase1.
  destruct (phase1_loop _ 0 (reset_stats s)) as [s1| |] eqn:Hp1; [|done..].
  cbn [rbind]. intros Hp2.
  destruct (phase1_loop_frame _ _ _ _ Hp1) as [? ?].
  destruct (phase2_loop_frame _ _ _ _ _ _ Hp2) as [? ?].
  simpl in *. split; congruence.
Qed.

Lemma rounds_frame k : ∀ s (g : G) s' g',
  rounds k s g = Ok (s', g') →
  length (load_vector_ s') = length (load_vector_ s) ∧ bin_uar_ s' = bin_uar_ s.
Proof.
  induction k as [|k IH]; intros s g s' g'; simpl.
  - intros ?; by simplify_eq.
  - destruct (nextRound s g) as [[s1 g1]| |] eqn:Hn; [|done..]. cbn [rbind]. intros Hr.
    destruct (nextRound_frame _ _ _ _ Hn) as [? ?].
    destruct (IH _ _ _ _ Hr) as [? ?]. split; congruence.
Qed.

(** From a state of the constructor's shape a round stays inside the
    vector: it ends in such a state again, or the [int] counter of the
    second loop overflows. *)
Lemma nextRound_shape s (g : G) :
  engine_shape s →
  nextRound s g = UB SignedOverflow ∨
  ∃ s' g', nextRound s g = Ok (s', g') ∧ engine_shape s'.
Proof.
  intros [Hty Hsz Hu]. unfold nextRound. rewrite (phase1_spec s Hty). cbn [rbind].
  set (s1 := {| load_vector_ := map collect (load_vector_ s) |}).
  assert (engine_shape s1) as Hs1.
  { destruct Hty as [Hr Hmax].
    split; simpl; unfold well_typed, vec_size in *; rewrite ?length_map; try done.
    split; [|done]. apply Forall_map. eapply Forall_impl; [|exact Hr].
    intros x. apply collect_in_range. }
  destruct (phase2_loop_shape (Z.to_nat (balls_to_allocate s)) 0 s1 g Hs1)
    as [->|(s' & g' & -> & Hs' & _)]; [by left|].
  right. by exists s', g'.
Qed.

Lemma rounds_shape k : ∀ s (g : G),
  engine_shape s →
  rounds k s g = UB SignedOverflow ∨
  ∃ s' g', rounds k s g = Ok (s', g') ∧ engine_shape s'.
Proof.
  induction k as [|k IH]; intros s g Hs; simpl.
  - right. by exists s, g.
  - destruct (nextRound_shape s g Hs) as [->|(s1 & g1 & -> & Hs1)]; [by left|].
    cbn [rbind]. by apply IH.
Qed.

(** With more than [INT_MAX] balls to allocate the counter of the second
    loop does overflow. *)
Lemma phase2_loop_overflow iters : ∀ j s (g : G),
  engine_shape s → 0 <= j <= INT_MAX → INT_MAX < j + Z.of_nat iters →
  phase2_loop iters j s g = UB SignedOverflow.
Proof.
  induction iters as [|iters IH]; intros j s g Hs Hj Hover; [lia|].
  destruct (phase2_body_spec s g Hs) as (i & x & Hx & Hr & Heq).
  destruct (phase2_body_shape _ _ _ _ Hs Heq) as [Hs' _].
  cbn [phase2_loop]. rewrite Heq. cbn [rbind].
  destruct (Z.eqb_spec j INT_MAX); [done|]. apply IH; [done|lia|lia].
Qed.

Lemma nextRound_overflow s (g : G) :
  engine_shape s → INT_MAX < balls_to_allocate s →
  nextRound s g = UB SignedOverflow.
Proof.
  intros Hs Hb. pose proof Hs as [Hty Hsz Hu].
  unfold nextRound. rewrite (phase1_spec s Hty). cbn [rbind].
  apply phase2_loop_overflow; [|done|lia].
  destruct Hty as [Hr Hmax].
  split; simpl; unfold well_typed, vec_size in *; rewrite ?length_map; try done.
  split; [|done]. apply Forall_map. eapply Forall_impl; [|exact Hr].
  intros x. apply collect_in_range.
Qed.

Lemma count_empty_ones n : count_empty (replicate n 1) = 0.
Proof. induction n as [|n IH]; simpl; [done|]. by rewrite IH. Qed.

(** More than [INT_MAX] bins with one ball each: the first round already
    overflows the counter. *)
Lemma nextRound_too_many_bins (n : nat) (g : G) :
  INT_MAX < Z.of_nat n <= SIZE_MAX →
  nextRound (RepeatedBallsIntoBins_init (replicate n 1)) g = UB SignedOverflow.
Proof.
  intros Hn. pose proof INT_MAX_lt_SIZE_MAX as Hlt.
  assert (well_typed (replicate n 1)) as Hty.
  { split; [|unfold vec_size; rewrite length_replicate; lia].
    apply Forall_replicate. unfold in_range. unfold INT_MAX in *. lia. }
  apply nextRound_overflow.
  - apply init_engine_shape; [done|].
    intros Hnil. apply (f_equal length) in Hnil.
    rewrite length_replicate in Hnil. unfold INT_MAX in *. simpl in Hnil. lia.
  - unfold balls_to_allocate.
    rewrite (proj2 (init_consistent _ (proj2 Hty))), init_load_vector.
    unfold vec_size. rewrite count_empty_ones, length_replicate, Z.sub_0_r.
    rewrite wrap_small by (unfold in_range; lia). lia.
Qed.

End Frame.

(** ** Concrete inputs *)

Lemma scripted_draw_in_range a b (g : list Z) :
  a <= b → a <= (scripted_draw (a, b) g).1 <= b.
Proof. intros Hab. destruct g as [|x g]; simpl; lia. Qed.

#[export] Instance scripted : UniformIntDistribution (list Z) :=
  {| draw := scripted_draw; draw_in_range := scripted_draw_in_range |}.

Ltac range_list :=
  repeat (apply List.Forall_cons; [unfold in_range, SIZE_MAX, modulus; lia|]);
  apply List.Forall_nil.

Ltac typed_list := split; [range_list | by vm_compute].

Ltac engine_ok_init :=
  apply init_engine_ok; [range_list | by vm_compute | by vm_compute].

Example scenario_D :
  nextRound (RepeatedBallsIntoBins_init [0; 2; 5]) [2; 2]
  = Ok (mkRBB [0; 1; 6] 1 6 (0, 2), []).
Proof. vm_compute. reflexivity. Qed.

Example scenario_D_phase1 :
  phase1 (RepeatedBallsIntoBins_init [0; 2; 5]) = Ok (mkRBB [0; 1; 4] 1 4 (0, 2)) ∧
  balls_to_allocate (RepeatedBallsIntoBins_init [0; 2; 5]) = 2.
Proof. split; vm_compute; reflexivity. Qed.

(** A bin at [SIZE_MAX] that receives two balls wraps to zero, and the
    statistics keep what they saw on the way. *)
Example wrap_example :
  nextRound (RepeatedBallsIntoBins_init [2 ^ 64 - 1; 1]) [0; 0]
  = Ok (mkRBB [0; 0] 1 (2 ^ 64 - 1) (0, 1), []).
Proof. vm_compute. reflexivity. Qed.

Lemma count_empty_filter v :
  count_empty v = Z.of_nat (length (filter (fun x => x = 0) v)).
Proof.
  induction v as [|x v IH]; [done|]. simpl. rewrite filter_cons.
  destruct (decide (x = 0)) as [->|Hx]; simpl length.
  - rewrite IH. simpl. lia.
  - rewrite IH. destruct (Z.eqb_spec x 0); [done|]. simpl. lia.
Qed.

Lemma count_nonempty_spec v : count_nonempty v = vec_size v - count_empty v.
Proof.
  unfold vec_size. induction v as [|x v IH]; simpl length; simpl; [lia|].
  rewrite IH. destruct (x =? 0); simpl; lia.
Qed.

Lemma max_entry_empty n : max_entry (replicate n 0) = 0.
Proof. induction n as [|n IH]; simpl; [done|]. rewrite IH. done. Qed.

Lemma count_empty_empty n : count_empty (replicate n 0) = Z.of_nat n.
Proof. induction n as [|n IH]; simpl count_empty; [done|]. rewrite IH. simpl. lia. Qed.

Lemma collect_empty n : map collect (replicate n 0) = replicate n 0.
Proof. induction n as [|n IH]; simpl; [done|]. by rewrite IH. Qed.

(** ** The specification of the engine *)

Section EngineClaims.
Context {G : Type} `{UniformIntDistribution G}.

(** C1 (amended).  After construction from any non-empty vector of
    [size_t], the cached [max_load_] is the largest entry of the vector;
    and from every state with consistent statistics, at most [INT_MAX]
    bins and at most [SIZE_MAX] balls in total, any number of [nextRound]
    calls runs to its end in a state whose [max_load_] is the largest entry
    of its load vector. *)
Theorem max_load_consistency (v : list Z) (s : RepeatedBallsIntoBins) (g : G) (k : nat) :
  well_typed v → v ≠ [] → engine_ok s →
  is_maximum (getMaxLoad (RepeatedBallsIntoBins_init v)) v ∧
  ∃ s' g', rounds k s g = Ok (s', g') ∧
           is_maximum (getMaxLoad s') (getLoadVector s').
Proof.
  intros [Hr Hsz] Hne Hok. split.
  - unfold getMaxLoad. rewrite (proj1 (init_consistent v Hsz)).
    by apply max_entry_is_maximum.
  - destruct (rounds_engine_ok k s g Hok) as (s' & g' & Heq & Hok' & _ & _).
    exists s', g'. split; [done|].
    destruct Hok' as [Hr' Hsz' _ _ [Hm' _]]. unfold getMaxLoad, getLoadVector.
    rewrite Hm'. apply max_entry_is_maximum; [|done].
    intros Hnil. rewrite Hnil in Hsz'. unfold vec_size in Hsz'. simpl in Hsz'. lia.
Qed.

(** C2 (amended).  After construction from any non-empty vector of [size_t], the
    cached [num_empty_bins_] is the number of zero entries; and from every
    state with consistent statistics, at most [INT_MAX] bins and at most
    [SIZE_MAX] balls in total, any number of [nextRound] calls runs to its
    end in a state whose [num_empty_bins_] is the number of zero entries
    of its load vector. *)
Theorem empty_bin_consistency (v : list Z) (s : RepeatedBallsIntoBins) (g : G) (k : nat) :
  well_typed v → v ≠ [] → engine_ok s →
  getNumEmptyBins (RepeatedBallsIntoBins_init v) = count_empty v ∧
  ∃ s' g', rounds k s g = Ok (s', g') ∧
           getNumEmptyBins s' = count_empty (getLoadVector s').
Proof.
  intros [Hr Hsz] Hne Hok. split.
  - apply (init_consistent v Hsz).
  - destruct (rounds_engine_ok k s g Hok) as (s' & g' & Heq & Hok' & _ & _).
    exists s', g'. split; [done|]. apply Hok'.
Qed.

(** C3 (amended).  From every state with between [1] and [INT_MAX] bins
    and a consistent [num_empty_bins_], one [nextRound] call runs to its
    end, whatever is drawn: phase 1 removes as many balls as there are
    non-empty bins at the start of the round, which is [balls_to_allocate],
    the number of increments of phase 2; the sum of the load vector is
    unchanged modulo [2^64], and unchanged when it is at most [SIZE_MAX]. *)
Theorem conservation (s : RepeatedBallsIntoBins) (g : G) :
  round_pre s →
  ∃ s1 s' g',
    phase1 s = Ok s1 ∧
    phase2_loop (Z.to_nat (balls_to_allocate s)) 0 s1 g = Ok (s', g') ∧
    nextRound s g = Ok (s', g') ∧
    total_load (load_vector_ s) - total_load (load_vector_ s1)
    = count_nonempty (load_vector_ s) ∧
    balls_to_allocate s = count_nonempty (load_vector_ s) ∧
    wrap (total_load (load_vector_ s')) = wrap (total_load (load_vector_ s)) ∧
    (total_load (load_vector_ s) <= SIZE_MAX →
     total_load (load_vector_ s') - total_load (load_vector_ s1)
     = balls_to_allocate s ∧
     total_load (load_vector_ s') = total_load (load_vector_ s)).
Proof.
  intros Hpre. pose proof (round_pre_well_typed s Hpre) as Hty.
  pose proof (phase1_spec s Hty) as Hp1.
  destruct (nextRound_round_pre_modular s g Hpre) as (s' & g' & Heq & Hmod).
  pose proof (round_pre_balls s Hpre) as Hb.
  pose proof (total_load_collect _ (pre_range s Hpre)) as Hcol.
  eexists _, s', g'. split; [exact Hp1|].
  pose proof Heq as Heq2.
  unfold nextRound in Heq2. rewrite Hp1 in Heq2. cbn [rbind] in Heq2.
  split; [exact Heq2|]. split; [exact Heq|].
  simpl. rewrite count_nonempty_spec.
  split; [lia|]. split; [lia|]. split; [done|]. intros Ht.
  destruct (nextRound_round_pre s g Hpre Ht) as (s'' & g'' & Heq' & _ & Ht' & _).
  rewrite Heq in Heq'. simplify_eq. lia.
Qed.

(** C5.  Phase 1 runs to its end on every vector of [size_t]; it takes
    exactly one ball from each bin with a positive load, without wrapping,
    and leaves the bins at zero as they are, so no load is negative after
    it; nor is any after the whole round. *)
Theorem phase1_no_underflow (s : RepeatedBallsIntoBins) (g : G) :
  well_typed (load_vector_ s) →
  (∃ s1, phase1 s = Ok s1 ∧
     length (load_vector_ s1) = length (load_vector_ s) ∧
     ∀ (i : nat) (x : Z), load_vector_ s !! i = Some x →
       ∃ y, load_vector_ s1 !! i = Some y ∧ 0 <= y ∧
            (0 < x → y = x - 1) ∧ (x = 0 → y = 0)) ∧
  (∀ s' g', nextRound s g = Ok (s', g') →
     Forall (fun y => 0 <= y) (load_vector_ s')).
Proof.
  intros Hty. split.
  - eexists. split; [apply (phase1_spec s Hty)|]. simpl.
    split; [apply length_map|]. intros i x Hx.
    exists (collect x). split.
    + change (map collect (load_vector_ s)) with (collect <$> load_vector_ s).
      by rewrite list_lookup_fmap, Hx.
    + pose proof (Forall_lookup_1 _ _ _ _ (proj1 Hty) Hx) as [Hx0 _].
      destruct (collect_nonneg x Hx0) as (? & ? & ?). done.
  - intros s' g'. unfold nextRound. rewrite (phase1_spec s Hty). cbn [rbind].
    set (s1 := {| load_vector_ := map collect (load_vector_ s) |}).
    assert (Forall in_range (load_vector_ s1)) as Hr1.
    { simpl. apply Forall_map. eapply Forall_impl; [|exact (proj1 Hty)].
      intros x. apply collect_in_range. }
    intros Hp2. pose proof (phase2_loop_range _ _ _ _ _ _ Hr1 Hp2) as Hr'.
    eapply Forall_impl; [|exact Hr']. by intros y [? _].
Qed.

(** C6.  The engine built from [n >= 1] empty bins has [max_load_ = 0] and
    [num_empty_bins_ = n]; a round allocates no ball and changes nothing,
    neither the engine nor the generator, however often it is called. *)
Theorem empty_system_noop (n : nat) (g : G) (k : nat) :
  (1 <= n)%nat → Z.of_nat n <= SIZE_MAX →
  let s := RepeatedBallsIntoBins_init (replicate n 0) in
  getMaxLoad s = 0 ∧ getNumEmptyBins s = Z.of_nat n ∧
  balls_to_allocate s = 0 ∧
  nextRound s g = Ok (s, g) ∧
  rounds k s g = Ok (s, g).
Proof.
  intros Hn Hmax s.
  assert (well_typed (replicate n 0)) as Hty.
  { split; [|unfold vec_size; by rewrite length_replicate].
    apply Forall_replicate. unfold in_range, SIZE_MAX, modulus. lia. }
  assert (s = mkRBB (replicate n 0) (Z.of_nat n) 0
                    (0, wrap (vec_size (replicate n 0) - 1))) as Hs.
  { subst s. unfold RepeatedBallsIntoBins_init.
    rewrite init_scan by (unfold vec_size; rewrite ?length_replicate; lia).
    simpl. by rewrite max_entry_empty, count_empty_empty. }
  clearbody s. subst s.
  assert (balls_to_allocate (mkRBB (replicate n 0) (Z.of_nat n) 0
            (0, wrap (vec_size (replicate n 0) - 1))) = 0) as Hb.
  { unfold balls_to_allocate, vec_size. simpl.
    by rewrite length_replicate, Z.sub_diag. }
  assert (nextRound (mkRBB (replicate n 0) (Z.of_nat n) 0
            (0, wrap (vec_size (replicate n 0) - 1))) g
          = Ok (mkRBB (replicate n 0) (Z.of_nat n) 0
                  (0, wrap (vec_size (replicate n 0) - 1)), g)) as Hround.
  { unfold nextRound. rewrite Hb, phase1_spec by done. cbn [rbind]. simpl.
    by rewrite collect_empty, max_entry_empty, count_empty_empty. }
  repeat split; try done.
  induction k as [|k IH]; [done|]. cbn [rounds]. by rewrite Hround.
Qed.

(** C7.  The engine built from one bin with load [m > 0]: phase 1 takes
    the ball out ([m - 1] is left), one ball is to be allocated, phase 2
    puts it back, and after every round the load is [m], [max_load_] is
    [m] and [num_empty_bins_] is [0]. *)
Theorem single_bin_invariant (m : Z) (g : G) (k : nat) :
  0 < m <= SIZE_MAX →
  let s := RepeatedBallsIntoBins_init [m] in
  (∃ s1, phase1 s = Ok s1 ∧ load_vector_ s1 = [m - 1]) ∧
  balls_to_allocate s = 1 ∧
  (∃ g', nextRound s g = Ok (s, g')) ∧
  ∃ s' g', rounds k s g = Ok (s', g') ∧
           getLoadVector s' = [m] ∧ getMaxLoad s' = m ∧ getNumEmptyBins s' = 0.
Proof.
  intros Hm s.
  assert (s = mkRBB [m] 0 m (0, 0)) as Hs.
  { subst s. unfold RepeatedBallsIntoBins_init. simpl.
    destruct (Z.eqb_spec m 0); [lia|]. simpl. f_equal. lia. }
  assert (engine_ok s) as Hok.
  { rewrite Hs. split; simpl; try done.
    - apply List.Forall_cons; [split; lia|apply List.Forall_nil].
    - lia.
    - split; simpl; [lia|]. destruct (Z.eqb_spec m 0); [lia|done]. }
  assert (∀ g0 : G, ∃ g1, nextRound s g0 = Ok (s, g1)) as Hround.
  { intros g0.
    destruct (nextRound_engine_ok s g0 Hok) as (s' & g' & Heq & Hok' & Ht & Hl).
    exists g'. rewrite Heq. f_equal. f_equal.
    destruct Hok' as [_ _ _ Hu' [Hm' He']].
    destruct s' as [lv' ne' ml' uar']. rewrite Hs in *. simpl in *.
    destruct lv' as [|m' [|? ?]]; simplify_eq. simpl in *.
    assert (m' = m) as -> by lia.
    destruct (Z.eqb_spec m 0); [lia|]. simpl. f_equal. lia. }
  split; [|split; [|split]].
  - eexists. split; [apply phase1_spec|].
    + destruct Hok as [Hr Hsz _ _ _]. split; [done|].
      pose proof INT_MAX_lt_SIZE_MAX. lia.
    + rewrite Hs. simpl. unfold collect. destruct (Z.ltb_spec 0 m); [done|lia].
  - rewrite Hs. reflexivity.
  - apply Hround.
  - assert (∃ g', rounds k s g = Ok (s, g')) as [g' Hk].
    { revert g. induction k as [|k IH]; intros g; [by exists g|].
      destruct (Hround g) as [g1 Hg1]. destruct (IH g1) as [g2 Hg2].
      exists g2. cbn [rounds]. by rewrite Hg1. }
    exists s, g'. split; [done|]. by rewrite Hs.
Qed.

(** C9.  The vector stored by the constructor is the one it was given, and
    no sequence of [nextRound] calls that runs to its end changes the length
    of the vector, in any state; from a state of the invariant every such
    sequence does run to its end. *)
Theorem load_vector_never_resized (v : list Z) (s : RepeatedBallsIntoBins) (g : G) (k : nat) :
  length (getLoadVector (RepeatedBallsIntoBins_init v)) = length v ∧
  (∀ s' g', rounds k s g = Ok (s', g') →
     length (getLoadVector s') = length (getLoadVector s)) ∧
  (engine_ok s →
     ∃ s' g', rounds k s g = Ok (s', g') ∧
              length (getLoadVector s') = length (getLoadVector s)).
Proof.
  split; [done|]. split.
  - intros s' g' Heq. apply (rounds_frame _ _ _ _ _ Heq).
  - intros Hok.
    destruct (rounds_engine_ok k s g Hok) as (s' & g' & Heq & _ & _ & Hl).
    by exists s', g'.
Qed.

(** C10.  For an engine built from a non-empty vector of length [n], no
    sequence of [nextRound] calls reads or writes outside the vector: the
    calls never end in [OutOfBounds], and in every state they reach the
    vector still has length [n] and the distribution is still the one over
    [0 .. n-1], so that every index it draws is below the length. *)
Theorem indices_in_bounds (v : list Z) (g : G) (k : nat) :
  well_typed v → v ≠ [] →
  rounds k (RepeatedBallsIntoBins_init v) g ≠ UB OutOfBounds ∧
  ∀ s' g', rounds k (RepeatedBallsIntoBins_init v) g = Ok (s', g') →
    length (load_vector_ s') = length v ∧
    bin_uar_ s' = (0, vec_size v - 1) ∧
    nextRound s' g' ≠ UB OutOfBounds ∧
    ∀ g1 : G, 0 <= (draw (bin_uar_ s') g1).1 < vec_size (load_vector_ s').
Proof.
  intros Hty Hne. pose proof (init_engine_shape v Hty Hne) as Hs.
  destruct (rounds_shape k _ g Hs) as [Hub|(s' & g' & Heq & Hs')].
  - rewrite Hub. split; [done|]. intros ? ? ?. simplify_eq.
  - rewrite Heq. split; [done|]. intros s'' g'' ?. simplify_eq.
    destruct (rounds_frame _ _ _ _ _ Heq) as [Hl Hu].
    rewrite init_load_vector in Hl. split; [done|].
    pose proof Hs' as [_ Hsz' Hu']. unfold vec_size in *.
    split; [by rewrite Hu', Hl|]. split.
    + destruct (nextRound_shape s'' g'' Hs') as [->|(? & ? & -> & _)]; done.
    + intros g1. rewrite Hu'.
      pose proof (draw_in_range 0 (Z.of_nat (length (load_vector_ s'')) - 1) g1).
      lia.
Qed.

End EngineClaims.

(** ** The claims at concrete engines *)

(** With [2^31] bins of one ball each the round is undefined. *)
Example int_counter_overflow :
  nextRound (RepeatedBallsIntoBins_init (replicate (Z.to_nat (2 ^ 31)) 1)) []
  = UB SignedOverflow.
Proof.
  apply nextRound_too_many_bins. rewrite Z2Nat.id by (by vm_compute).
  split; by vm_compute.
Qed.

Lemma max_load_consistency_witness :
  is_maximum (getMaxLoad (RepeatedBallsIntoBins_init [3; 3; 2; 2])) [3; 3; 2; 2] ∧
  ∃ s' g', rounds 2 (RepeatedBallsIntoBins_init [0; 2; 5]) [2; 2; 0; 1; 1] = Ok (s', g') ∧
           is_maximum (getMaxLoad s') (getLoadVector s').
Proof.
  apply (max_load_consistency [3; 3; 2; 2] (RepeatedBallsIntoBins_init [0; 2; 5])
           [2; 2; 0; 1; 1] 2).
  - typed_list.
  - done.
  - engine_ok_init.
Defined.

(** C1 as stated fails: from the consistent engine on [[SIZE_MAX; 1]], a
    round that draws bin 0 twice ends with both bins at zero and
    [max_load_] still at [SIZE_MAX]. *)
Lemma max_load_consistency_counterexample :
  well_typed [2 ^ 64 - 1; 1] ∧
  consistent (RepeatedBallsIntoBins_init [2 ^ 64 - 1; 1]) ∧
  ∃ s' g', nextRound (RepeatedBallsIntoBins_init [2 ^ 64 - 1; 1]) [0; 0] = Ok (s', g') ∧
           getLoadVector s' = [0; 0] ∧ getMaxLoad s' = 2 ^ 64 - 1 ∧
           ¬ is_maximum (getMaxLoad s') (getLoadVector s').
Proof.
  split; [typed_list|]. split; [by vm_compute|].
  exists (mkRBB [0; 0] 1 (2 ^ 64 - 1) (0, 1)), [].
  split; [by vm_compute|]. split; [done|]. split; [done|].
  intros [Hin _]. simpl in Hin.
  apply list_elem_of_In in Hin. simpl in Hin.
  destruct Hin as [Hin|[Hin|[]]]; vm_compute in Hin; discriminate.
Qed.

Lemma empty_bin_consistency_witness :
  getNumEmptyBins (RepeatedBallsIntoBins_init [0; 0; 7]) = count_empty [0; 0; 7] ∧
  ∃ s' g', rounds 3 (RepeatedBallsIntoBins_init [0; 0; 7]) [1; 1; 0; 2; 2] = Ok (s', g') ∧
           getNumEmptyBins s' = count_empty (getLoadVector s').
Proof.
  apply (empty_bin_consistency [0; 0; 7] (RepeatedBallsIntoBins_init [0; 0; 7])
           [1; 1; 0; 2; 2] 3).
  - typed_list.
  - done.
  - engine_ok_init.
Defined.

(** C2 as stated fails on the same round: both bins end at zero and
    [num_empty_bins_] is [1]. *)
Lemma empty_bin_consistency_counterexample :
  well_typed [2 ^ 64 - 1; 1] ∧
  consistent (RepeatedBallsIntoBins_init [2 ^ 64 - 1; 1]) ∧
  ∃ s' g', nextRound (RepeatedBallsIntoBins_init [2 ^ 64 - 1; 1]) [0; 0] = Ok (s', g') ∧
           getLoadVector s' = [0; 0] ∧ getNumEmptyBins s' = 1 ∧
           getNumEmptyBins s' ≠ count_empty (getLoadVector s').
Proof.
  split; [typed_list|]. split; [by vm_compute|].
  exists (mkRBB [0; 0] 1 (2 ^ 64 - 1) (0, 1)), [].
  split; [by vm_compute|]. split; [done|]. split; [done|]. by vm_compute.
Qed.

Lemma conservation_witness :
  ∃ s1 s' g',
    phase1 (mkRBB [0; 2; 5] 1 0 (0, 2)) = Ok s1 ∧
    phase2_loop (Z.to_nat (balls_to_allocate (mkRBB [0; 2; 5] 1 0 (0, 2)))) 0 s1 [1; 1]
    = Ok (s', g') ∧
    nextRound (mkRBB [0; 2; 5] 1 0 (0, 2)) [1; 1] = Ok (s', g') ∧
    total_load [0; 2; 5] - total_load (load_vector_ s1) = count_nonempty [0; 2; 5] ∧
    balls_to_allocate (mkRBB [0; 2; 5] 1 0 (0, 2)) = count_nonempty [0; 2; 5] ∧
    wrap (total_load (load_vector_ s')) = wrap (total_load [0; 2; 5]) ∧
    (total_load [0; 2; 5] <= SIZE_MAX →
     total_load (load_vector_ s') - total_load (load_vector_ s1)
     = balls_to_allocate (mkRBB [0; 2; 5] 1 0 (0, 2)) ∧
     total_load (load_vector_ s') = total_load [0; 2; 5]).
Proof.
  apply (conservation (mkRBB [0; 2; 5] 1 0 (0, 2)) [1; 1]).
  split; simpl; [range_list|by vm_compute|done|done].
Defined.

(** C3 as stated fails on the same round: the two bins hold [2^64] balls
    before it and none after it. *)
Lemma conservation_counterexample :
  1 <= vec_size [2 ^ 64 - 1; 1] ∧
  num_empty_bins_ (RepeatedBallsIntoBins_init [2 ^ 64 - 1; 1])
  = count_empty [2 ^ 64 - 1; 1] ∧
  ∃ s' g', nextRound (RepeatedBallsIntoBins_init [2 ^ 64 - 1; 1]) [0; 0] = Ok (s', g') ∧
           total_load [2 ^ 64 - 1; 1] = 2 ^ 64 ∧
           total_load (load_vector_ s') = 0.
Proof.
  split; [by vm_compute|]. split; [by vm_compute|].
  exists (mkRBB [0; 0] 1 (2 ^ 64 - 1) (0, 1)), [].
  split; [by vm_compute|]. split; by vm_compute.
Qed.

Lemma phase1_no_underflow_witness :
  (∃ s1, phase1 (mkRBB [0; 2; 5] 1 5 (0, 2)) = Ok s1 ∧
     length (load_vector_ s1) = length [0; 2; 5] ∧
     ∀ (i : nat) (x : Z), [0; 2; 5] !! i = Some x →
       ∃ y, load_vector_ s1 !! i = Some y ∧ 0 <= y ∧
            (0 < x → y = x - 1) ∧ (x = 0 → y = 0)) ∧
  (∀ s' g', nextRound (mkRBB [0; 2; 5] 1 5 (0, 2)) [2; 0] = Ok (s', g') →
     Forall (fun y => 0 <= y) (load_vector_ s')).
Proof.
  apply (phase1_no_underflow (mkRBB [0; 2; 5] 1 5 (0, 2)) [2; 0]).
  simpl. typed_list.
Defined.

Lemma empty_system_noop_witness :
  getMaxLoad (RepeatedBallsIntoBins_init (replicate 3 0)) = 0 ∧
  getNumEmptyBins (RepeatedBallsIntoBins_init (replicate 3 0)) = Z.of_nat 3 ∧
  balls_to_allocate (RepeatedBallsIntoBins_init (replicate 3 0)) = 0 ∧
  nextRound (RepeatedBallsIntoBins_init (replicate 3 0)) [1; 2]
  = Ok (RepeatedBallsIntoBins_init (replicate 3 0), [1; 2]) ∧
  rounds 4 (RepeatedBallsIntoBins_init (replicate 3 0)) [1; 2]
  = Ok (RepeatedBallsIntoBins_init (replicate 3 0), [1; 2]).
Proof.
  apply (empty_system_noop 3 [1; 2] 4); [lia|by vm_compute].
Defined.

Lemma single_bin_invariant_witness :
  (∃ s1, phase1 (RepeatedBallsIntoBins_init [7]) = Ok s1 ∧ load_vector_ s1 = [7 - 1]) ∧
  balls_to_allocate (RepeatedBallsIntoBins_init [7]) = 1 ∧
  (∃ g', nextRound (RepeatedBallsIntoBins_init [7]) [0; 0; 0] =
         Ok (RepeatedBallsIntoBins_init [7], g')) ∧
  ∃ s' g', rounds 3 (RepeatedBallsIntoBins_init [7]) [0; 0; 0] = Ok (s', g') ∧
           getLoadVector s' = [7] ∧ getMaxLoad s' = 7 ∧ getNumEmptyBins s' = 0.
Proof.
  apply (single_bin_invariant 7 [0; 0; 0] 3). by vm_compute.
Defined.

Lemma load_vector_never_resized_witness :
  length (getLoadVector (RepeatedBallsIntoBins_init [3; 3; 2; 2])) = length [3; 3; 2; 2] ∧
  (∀ s' g', rounds 2 (RepeatedBallsIntoBins_init [3; 3; 2; 2]) [0; 0; 0; 0; 1; 2; 3] = Ok (s', g') →
     length (getLoadVector s') = length (getLoadVector (RepeatedBallsIntoBins_init [3; 3; 2; 2]))) ∧
  (engine_ok (RepeatedBallsIntoBins_init [3; 3; 2; 2]) →
     ∃ s' g', rounds 2 (RepeatedBallsIntoBins_init [3; 3; 2; 2]) [0; 0; 0; 0; 1; 2; 3] = Ok (s', g') ∧
              length (getLoadVector s') = length (getLoadVector (RepeatedBallsIntoBins_init [3; 3; 2; 2]))).
Proof.
  apply (load_vector_never_resized [3; 3; 2; 2] (RepeatedBallsIntoBins_init [3; 3; 2; 2])
           [0; 0; 0; 0; 1; 2; 3] 2).
Defined.

Lemma indices_in_bounds_witness :
  rounds 2 (RepeatedBallsIntoBins_init [3; 3; 2; 2]) [5; 9; 0; 0] ≠ UB OutOfBounds ∧
  ∀ s' g', rounds 2 (RepeatedBallsIntoBins_init [3; 3; 2; 2]) [5; 9; 0; 0] = Ok (s', g') →
    length (load_vector_ s') = length [3; 3; 2; 2] ∧
    bin_uar_ s' = (0, vec_size [3; 3; 2; 2] - 1) ∧
    nextRound s' g' ≠ UB OutOfBounds ∧
    ∀ g1 : list Z, 0 <= (draw (bin_uar_ s') g1).1 < vec_size (load_vector_ s').
Proof.
  apply (indices_in_bounds [3; 3; 2; 2] [5; 9; 0; 0] 2); [typed_list|done].
Defined.

(** ** The generator of the initial vector *)

Lemma total_load_replicate n x : total_load (replicate n x) = Z.of_nat n * x.
Proof. induction n as [|n IH]; simpl total_load; [lia|]. rewrite IH. lia. Qed.

Lemma map_succ_replicate n x : map Z.succ (replicate n x) = replicate n (x + 1).
Proof. induction n as [|n IH]; simpl; [done|]. by rewrite IH. Qed.

(** The loop from index [length u] on adds one to the next [length v]
    entries and leaves the rest [w] alone. *)
Lemma increment_loop_spec v : ∀ u w,
  Forall (fun x => 0 <= x < SIZE_MAX) v →
  vec_size (u ++ v ++ w) <= SIZE_MAX →
  increment_loop (length v) (Z.of_nat (length u)) (u ++ v ++ w)
  = Ok (u ++ map Z.succ v ++ w).
Proof.
  unfold vec_size.
  induction v as [|x v IH]; intros u w Hv Hsz; [done|].
  inversion Hv as [|? ? Hx Hv']; subst.
  rewrite !length_app in Hsz. simpl length in Hsz.
  cbn [increment_loop length]. simpl app. rewrite vec_at_middle. cbn [rbind].
  rewrite Nat2Z.id, insert_middle.
  rewrite (wrap_small (x + 1)) by (unfold in_range; lia).
  rewrite (wrap_small (Z.of_nat (length u) + 1)) by (unfold in_range; lia).
  replace (Z.of_nat (length u) + 1) with (Z.of_nat (length (u ++ [x + 1])))
    by (rewrite length_app; simpl; lia).
  replace (u ++ (x + 1) :: v ++ w) with ((u ++ [x + 1]) ++ v ++ w)
    by (by rewrite <- app_assoc).
  rewrite IH; [|done|rewrite !length_app; simpl; lia].
  by rewrite <- app_assoc.
Qed.

Lemma INT_MAX_lt_MAX_SIZE : INT_MAX < MAX_SIZE.
Proof. reflexivity. Qed.

Lemma MAX_SIZE_lt_SIZE_MAX : MAX_SIZE < SIZE_MAX.
Proof. reflexivity. Qed.

(** Beyond [max_size()] the vector is never built. *)
Lemma generate_uniform_vector_too_long (num_bins num_balls : Z) :
  MAX_SIZE < num_bins →
  generate_uniform_vector num_bins num_balls = Throw LengthError.
Proof.
  intros Hn. pose proof INT_MAX_lt_MAX_SIZE. unfold generate_uniform_vector.
  destruct (Z.eqb_spec num_bins 0); [unfold INT_MAX in *; lia|].
  destruct (Z.ltb_spec MAX_SIZE num_bins); [done|lia].
Qed.

Lemma generate_uniform_vector_value (num_bins num_balls : Z) :
  0 < num_bins <= MAX_SIZE → 0 <= num_balls <= SIZE_MAX →
  generate_uniform_vector num_bins num_balls
  = Ok (replicate (Z.to_nat (num_balls mod num_bins)) (num_balls / num_bins + 1)
        ++ replicate (Z.to_nat (num_bins - num_balls mod num_bins))
             (num_balls / num_bins)).
Proof.
  intros Hn Hm. pose proof MAX_SIZE_lt_SIZE_MAX. unfold generate_uniform_vector.
  destruct (Z.eqb_spec num_bins 0); [lia|].
  destruct (Z.ltb_spec MAX_SIZE num_bins); [lia|].
  pose proof (Z.mod_pos_bound num_balls num_bins ltac:(lia)) as Hrem.
  pose proof (Z.div_pos num_balls num_bins ltac:(lia) ltac:(lia)) as Hq0.
  pose proof (Z.div_mod num_balls num_bins ltac:(lia)) as Hdm.
  set (q := num_balls / num_bins) in *. set (r := num_balls mod num_bins) in *.
  replace (Z.to_nat num_bins) with (Z.to_nat r + Z.to_nat (num_bins - r))%nat by lia.
  rewrite replicate_add.
  pose proof (increment_loop_spec (replicate (Z.to_nat r) q) []
                (replicate (Z.to_nat (num_bins - r)) q)) as Hloop.
  rewrite length_replicate in Hloop. simpl app in Hloop.
  change (Z.of_nat (length [])) with 0 in Hloop.
  rewrite Hloop; [by rewrite map_succ_replicate| |].
  - destruct (Z.eq_dec r 0) as [Hr0|Hr0].
    + rewrite Hr0. apply List.Forall_nil.
    + apply Forall_replicate.
      assert (2 * q <= num_bins * q) by nia. lia.
  - unfold vec_size. rewrite length_app, !length_replicate. lia.
Qed.

(** C4 (amended).  For [0 < num_bins <= max_size()],
    [generate_uniform_vector] returns a vector of length [num_bins] whose
    entries sum to [num_balls]; the entries at the indices below
    [num_balls mod num_bins] are [floor(num_balls / num_bins) + 1], all
    others are [floor(num_balls / num_bins)]; and for 4 bins and 10 balls
    the vector is [[3; 3; 2; 2]]. *)
Theorem generate_uniform_vector_correct (num_bins num_balls : Z) :
  0 < num_bins <= MAX_SIZE → 0 <= num_balls <= SIZE_MAX →
  (∃ v, generate_uniform_vector num_bins num_balls = Ok v ∧
        vec_size v = num_bins ∧
        total_load v = num_balls ∧
        Forall (fun x => x = num_balls / num_bins ∨ x = num_balls / num_bins + 1) v ∧
        ∀ (i : nat) (x : Z), v !! i = Some x →
          (Z.of_nat i < num_balls mod num_bins → x = num_balls / num_bins + 1) ∧
          (num_balls mod num_bins <= Z.of_nat i → x = num_balls / num_bins)) ∧
  generate_uniform_vector 4 10 = Ok [3; 3; 2; 2].
Proof.
  intros Hn Hm. split; [|by vm_compute].
  eexists. split; [by apply generate_uniform_vector_value|].
  pose proof (Z.mod_pos_bound num_balls num_bins ltac:(lia)) as Hrem.
  pose proof (Z.div_mod num_balls num_bins ltac:(lia)) as Hdm.
  set (q := num_balls / num_bins) in *. set (r := num_balls mod num_bins) in *.
  split; [|split; [|split]].
  - unfold vec_size. rewrite length_app, !length_replicate. lia.
  - rewrite total_load_app, !total_load_replicate. nia.
  - apply Forall_app. split; apply Forall_replicate; auto.
  - intros i x Hx. destruct (decide (i < Z.to_nat r)%nat) as [Hi|Hi].
    + rewrite lookup_app_l in Hx by (by rewrite length_replicate).
      apply lookup_replicate in Hx as [-> _]. split; [done|lia].
    + rewrite lookup_app_r in Hx by (rewrite length_replicate; lia).
      apply lookup_replicate in Hx as [-> _]. split; [lia|done].
Qed.

Lemma generate_uniform_vector_correct_witness :
  (∃ v, generate_uniform_vector 3 11 = Ok v ∧
        vec_size v = 3 ∧
        total_load v = 11 ∧
        Forall (fun x => x = 11 / 3 ∨ x = 11 / 3 + 1) v ∧
        ∀ (i : nat) (x : Z), v !! i = Some x →
          (Z.of_nat i < 11 mod 3 → x = 11 / 3 + 1) ∧
          (11 mod 3 <= Z.of_nat i → x = 11 / 3)) ∧
  generate_uniform_vector 4 10 = Ok [3; 3; 2; 2].
Proof.
  apply (generate_uniform_vector_correct 3 11); by vm_compute.
Defined.

(** C4 as stated fails: [2^60] bins are a [size_t] above zero, and for them
    the constructor of the vector throws [std::length_error]; no vector is
    returned. *)
Lemma generate_uniform_vector_correct_counterexample :
  0 < 2 ^ 60 <= SIZE_MAX ∧ 0 <= 0 <= SIZE_MAX ∧
  generate_uniform_vector (2 ^ 60) 0 = Throw LengthError ∧
  ¬ ∃ v, generate_uniform_vector (2 ^ 60) 0 = Ok v.
Proof.
  assert (generate_uniform_vector (2 ^ 60) 0 = Throw LengthError) as Hthrow
    by (apply generate_uniform_vector_too_long; by vm_compute).
  split; [by vm_compute|]. split; [by vm_compute|]. split; [exact Hthrow|].
  intros [v Hv]. rewrite Hthrow in Hv. discriminate.
Qed.

(** ** The experiments *)

Example scale_factors_eq :
  scale_factors = [1; 4; 7; 10; 13; 16; 19; 22; 25; 28; 31; 34; 37; 40; 43; 46; 49; 52].
Proof. reflexivity. Qed.

Lemma wrap_add_wrap_l a b : wrap (wrap a + b) = wrap (a + b).
Proof. unfold wrap. by rewrite Zplus_mod_idemp_l. Qed.

Lemma max_entry_le_total v : Forall in_range v → max_entry v <= total_load v.
Proof.
  induction 1 as [|x v [Hx _] Hv IH]; simpl; [done|].
  pose proof (total_load_nonneg v Hv). lia.
Qed.

Lemma sum_list_Z_app l1 l2 : sum_list_Z (l1 ++ l2) = sum_list_Z l1 + sum_list_Z l2.
Proof. induction l1 as [|x l1 IH]; simpl; [done|]. rewrite IH. lia. Qed.

Lemma sum_list_Z_bounds (b : Z) l :
  Forall (fun x => 0 <= x <= b) l →
  0 <= sum_list_Z l <= Z.of_nat (length l) * b.
Proof.
  induction 1 as [|x l Hx _ IH]; simpl sum_list_Z; simpl length; [lia|].
  rewrite Nat2Z.inj_succ. nia.
Qed.

Section ExperimentProofs.
Context {G : Type} `{UniformIntDistribution G}.

Lemma engine_ok_stats_within s :
  engine_ok s →
  stats_within (vec_size (load_vector_ s)) (total_load (load_vector_ s))
    (getMaxLoad s, getNumEmptyBins s).
Proof.
  intros [Hr _ _ _ [Hm He]]. unfold stats_within, getMaxLoad, getNumEmptyBins.
  simpl. rewrite Hm, He.
  pose proof (max_entry_nonneg (load_vector_ s)).
  pose proof (max_entry_le_total _ Hr).
  pose proof (count_empty_bounds (load_vector_ s)). lia.
Qed.

(** The rounds of one repetition all run, and what is read after each is
    within the bounds of the engine. *)
Lemma observe_rounds_ok k : ∀ rbb (g : G),
  engine_ok rbb →
  ∃ obs g', observe_rounds k rbb g = Ok (obs, g') ∧ length obs = k ∧
    Forall (stats_within (vec_size (load_vector_ rbb))
              (total_load (load_vector_ rbb))) obs.
Proof.
  induction k as [|k IH]; intros rbb g Hok.
  - exists [], g. by repeat split.
  - destruct (nextRound_engine_ok rbb g Hok) as (rbb1 & g1 & Heq & Hok1 & Ht1 & Hl1).
    destruct (IH rbb1 g1 Hok1) as (obs & g2 & Hobs & Hlen & Hall).
    exists ((getMaxLoad rbb1, getNumEmptyBins rbb1) :: obs), g2.
    cbn [observe_rounds]. rewrite Heq. cbn [rbind]. rewrite Hobs. cbn [rbind].
    split; [done|]. split; [simpl; by rewrite Hlen|].
    unfold vec_size in *. rewrite Ht1, Hl1 in Hall.
    apply List.Forall_cons; [|done].
    pose proof (engine_ok_stats_within rbb1 Hok1) as Hst.
    unfold vec_size in Hst. by rewrite Ht1, Hl1 in Hst.
Qed.

(** The loop over the rounds adds what [observe_rounds] lists. *)
Lemma round_loop_observe k : ∀ rbb (g : G) agg obs g',
  observe_rounds k rbb g = Ok (obs, g') →
  in_range agg.1 → in_range agg.2 →
  round_loop k rbb g agg
  = Ok (g', (wrap (agg.1 + sum_list_Z (map fst obs)),
             wrap (agg.2 + sum_list_Z (map snd obs)))).
Proof.
  induction k as [|k IH]; intros rbb g [a1 a2] obs g'; simpl.
  - intros ? Ha1 Ha2. simplify_eq. simpl.
    by rewrite !Z.add_0_r, !wrap_small.
  - destruct (nextRound rbb g) as [[rbb1 g1]| |]; [|done..]. cbn [rbind].
    destruct (observe_rounds k rbb1 g1) as [[obs1 g2]| |] eqn:Hobs; [|done..].
    cbn [rbind]. intros ? Ha1 Ha2. simplify_eq.
    rewrite (IH _ _ _ _ _ Hobs) by apply wrap_in_range.
    simpl. rewrite !wrap_add_wrap_l, !Z.add_assoc. done.
Qed.

Lemma generate_engine_ok (num_bins num_balls : Z) :
  1 <= num_bins <= INT_MAX → 0 <= num_balls <= SIZE_MAX →
  ∃ v, generate_uniform_vector num_bins num_balls = Ok v ∧
       engine_ok (RepeatedBallsIntoBins_init v) ∧
       vec_size v = num_bins ∧ total_load v = num_balls.
Proof.
  intros Hn Hm. pose proof INT_MAX_lt_SIZE_MAX.
  pose proof INT_MAX_lt_MAX_SIZE.
  eexists. split; [apply generate_uniform_vector_value; lia|].
  pose proof (Z.mod_pos_bound num_balls num_bins ltac:(lia)) as Hrem.
  pose proof (Z.div_pos num_balls num_bins ltac:(lia) ltac:(lia)) as Hq0.
  pose proof (Z.div_mod num_balls num_bins ltac:(lia)) as Hdm.
  set (q := num_balls / num_bins) in *. set (r := num_balls mod num_bins) in *.
  assert (vec_size (replicate (Z.to_nat r) (q + 1)
                    ++ replicate (Z.to_nat (num_bins - r)) q) = num_bins) as Hsz.
  { unfold vec_size. rewrite length_app, !length_replicate. lia. }
  assert (total_load (replicate (Z.to_nat r) (q + 1)
                      ++ replicate (Z.to_nat (num_bins - r)) q) = num_balls) as Ht.
  { rewrite total_load_app, !total_load_replicate. nia. }
  split; [|done]. apply init_engine_ok; [|lia|lia].
  apply Forall_app. split.
  - destruct (Z.eq_dec r 0) as [Hr0|Hr0].
    + rewrite Hr0. apply List.Forall_nil.
    + apply Forall_replicate. unfold in_range. nia.
  - apply Forall_replicate. unfold in_range. nia.
Qed.

Lemma observe_repetitions_ok reps (num_bins num_balls num_rounds : Z) : ∀ g : G,
  1 <= num_bins <= INT_MAX → 0 <= num_balls <= SIZE_MAX →
  ∃ obs, observe_repetitions reps num_bins num_balls num_rounds g = Ok obs ∧
         length obs = (reps * Z.to_nat num_rounds)%nat ∧
         Forall (stats_within num_bins num_balls) obs.
Proof.
  intros g Hn Hm. revert g. induction reps as [|reps IH]; intros g.
  - by exists [].
  - destruct (generate_engine_ok num_bins num_balls Hn Hm) as (v & Hv & Hok & Hsz & Ht).
    destruct (observe_rounds_ok (Z.to_nat num_rounds) _ g Hok)
      as (obs & g1 & Hobs & Hlen & Hall).
    destruct (IH g1) as (obs' & Hobs' & Hlen' & Hall').
    exists (obs ++ obs'). cbn [observe_repetitions].
    rewrite Hv. cbn [rbind]. rewrite Hobs. cbn [rbind]. rewrite Hobs'. cbn [rbind].
    split; [done|]. split; [rewrite length_app; lia|].
    apply Forall_app. split; [|done].
    rewrite init_load_vector, Hsz, Ht in Hall. done.
Qed.

Lemma repetition_loop_observe reps (num_bins num_balls num_rounds : Z) :
  ∀ (g : G) agg obs,
  observe_repetitions reps num_bins num_balls num_rounds g = Ok obs →
  in_range agg.1 → in_range agg.2 →
  ∃ g', repetition_loop reps num_bins num_balls num_rounds g agg
        = Ok (g', (wrap (agg.1 + sum_list_Z (map fst obs)),
                   wrap (agg.2 + sum_list_Z (map snd obs)))).
Proof.
  induction reps as [|reps IH]; intros g [a1 a2] obs; simpl.
  - intros ? Ha1 Ha2. simplify_eq. exists g. simpl.
    by rewrite !Z.add_0_r, !wrap_small.
  - destruct (generate_uniform_vector num_bins num_balls) as [v| |]; [|done..].
    cbn [rbind].
    destruct (observe_rounds _ _ g) as [[obs1 g1]| |] eqn:Hobs1; [|done..].
    cbn [rbind].
    destruct (observe_repetitions reps _ _ _ g1) as [obs2| |] eqn:Hobs2; [|done..].
    cbn [rbind]. intros ? Ha1 Ha2. simplify_eq.
    rewrite (round_loop_observe _ _ _ _ _ _ Hobs1) by done. cbn [rbind].
    destruct (IH g1 (wrap (a1 + sum_list_Z (map fst obs1)),
                     wrap (a2 + sum_list_Z (map snd obs1))) _ Hobs2)
      as [g2 Hg2]; [apply wrap_in_range..|].
    exists g2. simpl in *. rewrite Hg2.
    rewrite !map_app, !sum_list_Z_app, !wrap_add_wrap_l, !Z.add_assoc. done.
Qed.

(** What [run_experiments_for_n_and_m] returns, in terms of the listed
    statistics; the sums and the number of rounds are taken in [size_t]. *)
Lemma run_experiments_for_n_and_m_observe
    (num_bins num_balls num_rounds num_repetitions : Z) (g : G) obs :
  observe_repetitions (Z.to_nat num_repetitions) num_bins num_balls num_rounds g
  = Ok obs →
  run_experiments_for_n_and_m num_bins num_balls num_rounds num_repetitions g
  = Ok ((to_double (wrap (sum_list_Z (map fst obs)))
         / to_double (wrap (num_rounds * num_repetitions)))%float,
        (to_double (wrap (sum_list_Z (map snd obs)))
         / to_double (wrap (num_rounds * num_repetitions)))%float).
Proof.
  intros Hobs. unfold run_experiments_for_n_and_m.
  destruct (repetition_loop_observe _ _ _ _ g (0, 0) obs Hobs) as [g' ->];
    [by vm_compute..|].
  done.
Qed.

Lemma run_experiments_for_n_and_m_defined
    (num_bins num_balls num_rounds num_repetitions : Z) (g : G) :
  1 <= num_bins <= INT_MAX → 0 <= num_balls <= SIZE_MAX →
  ∃ avg, run_experiments_for_n_and_m num_bins num_balls num_rounds
           num_repetitions g = Ok avg.
Proof.
  intros Hn Hm.
  destruct (observe_repetitions_ok (Z.to_nat num_repetitions) num_bins num_balls
              num_rounds g Hn Hm) as (obs & Hobs & _ & _).
  eexists. by apply run_experiments_for_n_and_m_observe.
Qed.

Lemma sweep_spec factors : ∀ (num_bins num_rounds num_repetitions : Z) (g : G)
    (avg : Z → float * float) maxs empties,
  (∀ scale_factor,
     run_experiments_for_n_and_m num_bins (wrap (scale_factor * num_bins))
       num_rounds num_repetitions g = Ok (avg scale_factor)) →
  sweep factors num_bins num_rounds num_repetitions g maxs empties
  = Ok (maxs ++ map (fun sf => (sf, (avg sf).1)) factors,
        empties ++ map (fun sf => (sf, (avg sf).2)) factors).
Proof.
  induction factors as [|sf factors IH]; intros n R K g avg maxs empties Havg.
  - simpl. by rewrite !app_nil_r.
  - cbn [sweep]. rewrite Havg. cbn [rbind]. destruct (avg sf) as [a1 a2] eqn:Ha.
    rewrite (IH _ _ _ _ avg) by done.
    rewrite <- !app_assoc. simpl. by rewrite Ha.
Qed.

Lemma report_spec (num_bins num_rounds num_repetitions : Z) (g : G) :
  1 <= num_bins <= INT_MAX →
  ∃ avg : Z → float * float,
    (∀ scale_factor,
       run_experiments_for_n_and_m num_bins (wrap (scale_factor * num_bins))
         num_rounds num_repetitions g = Ok (avg scale_factor)) ∧
    report num_bins num_rounds num_repetitions g
    = Ok (Header num_bins
          :: map (fun sf => Point sf (avg sf).1) scale_factors
          ++ map (fun sf => Point sf ((avg sf).2 / to_double num_bins)%float)
               scale_factors).
Proof.
  intros Hn.
  exists (fun sf =>
    match run_experiments_for_n_and_m num_bins (wrap (sf * num_bins))
            num_rounds num_repetitions g with
    | Ok avg => avg
    | _ => (0%float, 0%float)
    end).
  assert (∀ sf,
    run_experiments_for_n_and_m num_bins (wrap (sf * num_bins))
      num_rounds num_repetitions g
    = Ok match run_experiments_for_n_and_m num_bins (wrap (sf * num_bins))
                 num_rounds num_repetitions g with
         | Ok avg => avg
         | _ => (0%float, 0%float)
         end) as Havg.
  { intros sf.
    destruct (run_experiments_for_n_and_m_defined num_bins (wrap (sf * num_bins))
                num_rounds num_repetitions g Hn) as [avg ->]; [|done].
    apply wrap_in_range. }
  split; [exact Havg|].
  unfold report. rewrite (sweep_spec _ _ _ _ _ _ [] [] Havg). cbn [rbind app].
  by rewrite !map_map.
Qed.

End ExperimentProofs.

Section ExperimentClaims.
Context {G : Type} `{UniformIntDistribution G}.

(** C8 (amended).  For between [1] and [INT_MAX] bins and at least one
    round and one repetition, [run_experiments_for_n_and_m] runs all
    [num_rounds * num_repetitions] rounds and returns the sum of the
    [getMaxLoad] values and the sum of the [getNumEmptyBins] values read
    after them, each divided as a [double] by
    [num_rounds * num_repetitions], where the two sums and the product are
    taken in [size_t], modulo [2^64]; they are the exact ones when
    [num_rounds * num_repetitions] times [num_balls], and times
    [num_bins], is at most [SIZE_MAX].  What is written for a bin count is
    the header, the averages of the maximum load, and the averages of the
    number of empty bins divided by [double(num_bins)]; [run_experiments]
    writes this for 100, 1000 and 10000 bins. *)
Theorem experiment_averages
    (num_bins num_balls num_rounds num_repetitions : Z) (g : G) :
  1 <= num_bins <= INT_MAX → 0 <= num_balls <= SIZE_MAX →
  1 <= num_rounds → 1 <= num_repetitions →
  (∃ obs,
     observe_repetitions (Z.to_nat num_repetitions) num_bins num_balls
       num_rounds g = Ok obs ∧
     Z.of_nat (length obs) = num_rounds * num_repetitions ∧
     run_experiments_for_n_and_m num_bins num_balls num_rounds num_repetitions g
     = Ok ((to_double (wrap (sum_list_Z (map fst obs)))
            / to_double (wrap (num_rounds * num_repetitions)))%float,
           (to_double (wrap (sum_list_Z (map snd obs)))
            / to_double (wrap (num_rounds * num_repetitions)))%float) ∧
     (num_rounds * num_repetitions * num_balls <= SIZE_MAX →
      num_rounds * num_repetitions * num_bins <= SIZE_MAX →
      run_experiments_for_n_and_m num_bins num_balls num_rounds num_repetitions g
      = Ok ((to_double (sum_list_Z (map fst obs))
             / to_double (num_rounds * num_repetitions))%float,
            (to_double (sum_list_Z (map snd obs))
             / to_double (num_rounds * num_repetitions))%float))) ∧
  (∃ avg : Z → float * float,
     (∀ scale_factor,
        run_experiments_for_n_and_m num_bins (wrap (scale_factor * num_bins))
          num_rounds num_repetitions g = Ok (avg scale_factor)) ∧
     report num_bins num_rounds num_repetitions g
     = Ok (Header num_bins
           :: map (fun sf => Point sf (avg sf).1) scale_factors
           ++ map (fun sf => Point sf ((avg sf).2 / to_double num_bins)%float)
                scale_factors)) ∧
  (∃ lines100 lines1000 lines10000,
     report 100 1000000 num_repetitions g = Ok lines100 ∧
     report 1000 1000000 num_repetitions g = Ok lines1000 ∧
     report 10000 1000000 num_repetitions g = Ok lines10000 ∧
     run_experiments num_repetitions g
     = Ok (lines100 ++ lines1000 ++ lines10000)).
Proof.
  intros Hn Hm HR HK. split; [|split].
  - destruct (observe_repetitions_ok (Z.to_nat num_repetitions) num_bins num_balls
                num_rounds g Hn Hm) as (obs & Hobs & Hlen & Hall).
    exists obs. split; [done|].
    assert (Z.of_nat (length obs) = num_rounds * num_repetitions) as Hlen'
      by (rewrite Hlen; lia).
    split; [done|].
    split; [by apply run_experiments_for_n_and_m_observe|].
    intros Hmax Hempty.
    rewrite (run_experiments_for_n_and_m_observe _ _ _ _ _ _ Hobs).
    assert (0 <= sum_list_Z (map fst obs) <= SIZE_MAX) as H1.
    { pose proof (sum_list_Z_bounds num_balls (map fst obs)) as Hb.
      rewrite length_map, Hlen' in Hb.
      assert (0 <= sum_list_Z (map fst obs)
              <= num_rounds * num_repetitions * num_balls); [|lia].
      apply Hb. apply Forall_map. eapply Forall_impl; [|exact Hall].
      by intros p [? _]. }
    assert (0 <= sum_list_Z (map snd obs) <= SIZE_MAX) as H2.
    { pose proof (sum_list_Z_bounds num_bins (map snd obs)) as Hb.
      rewrite length_map, Hlen' in Hb.
      assert (0 <= sum_list_Z (map snd obs)
              <= num_rounds * num_repetitions * num_bins); [|lia].
      apply Hb. apply Forall_map. eapply Forall_impl; [|exact Hall].
      by intros p [_ ?]. }
    assert (0 <= num_rounds * num_repetitions <= SIZE_MAX) as H3 by nia.
    by rewrite !wrap_small.
  - by apply report_spec.
  - destruct (report_spec 100 1000000 num_repetitions g) as (? & _ & H1);
      [by vm_compute|].
    destruct (report_spec 1000 1000000 num_repetitions g) as (? & _ & H2);
      [by vm_compute|].
    destruct (report_spec 10000 1000000 num_repetitions g) as (? & _ & H3);
      [by vm_compute|].
    eexists _, _, _. split; [exact H1|]. split; [exact H2|]. split; [exact H3|].
    unfold run_experiments. cbn [report_all].
    rewrite H1, H2, H3. cbn [rbind]. by rewrite app_nil_r.
Qed.

End ExperimentClaims.

Lemma experiment_averages_witness :
  (∃ obs,
     observe_repetitions (Z.to_nat 2) 4 10 3 [0; 1; 2; 3; 3; 2; 1] = Ok obs ∧
     Z.of_nat (length obs) = 3 * 2 ∧
     run_experiments_for_n_and_m 4 10 3 2 [0; 1; 2; 3; 3; 2; 1]
     = Ok ((to_double (wrap (sum_list_Z (map fst obs)))
            / to_double (wrap (3 * 2)))%float,
           (to_double (wrap (sum_list_Z (map snd obs)))
            / to_double (wrap (3 * 2)))%float) ∧
     (3 * 2 * 10 <= SIZE_MAX →
      3 * 2 * 4 <= SIZE_MAX →
      run_experiments_for_n_and_m 4 10 3 2 [0; 1; 2; 3; 3; 2; 1]
      = Ok ((to_double (sum_list_Z (map fst obs)) / to_double (3 * 2))%float,
            (to_double (sum_list_Z (map snd obs)) / to_double (3 * 2))%float))) ∧
  (∃ avg : Z → float * float,
     (∀ scale_factor,
        run_experiments_for_n_and_m 4 (wrap (scale_factor * 4)) 3 2
          [0; 1; 2; 3; 3; 2; 1] = Ok (avg scale_factor)) ∧
     report 4 3 2 [0; 1; 2; 3; 3; 2; 1]
     = Ok (Header 4
           :: map (fun sf => Point sf (avg sf).1) scale_factors
           ++ map (fun sf => Point sf ((avg sf).2 / to_double 4)%float)
                scale_factors)) ∧
  (∃ lines100 lines1000 lines10000,
     report 100 1000000 2 [0; 1; 2; 3; 3; 2; 1] = Ok lines100 ∧
     report 1000 1000000 2 [0; 1; 2; 3; 3; 2; 1] = Ok lines1000 ∧
     report 10000 1000000 2 [0; 1; 2; 3; 3; 2; 1] = Ok lines10000 ∧
     run_experiments 2 [0; 1; 2; 3; 3; 2; 1]
     = Ok (lines100 ++ lines1000 ++ lines10000)).
Proof.
  apply (experiment_averages 4 10 3 2 [0; 1; 2; 3; 3; 2; 1]); by vm_compute.
Defined.

Example experiment_averages_values :
  run_experiments_for_n_and_m 4 10 3 2 [0; 1; 2; 3; 3; 2; 1]
  = Ok ((to_double 37 / to_double 6)%float, (to_double 5 / to_double 6)%float).
Proof. vm_compute. reflexivity. Qed.

(** C8 as stated fails: with one bin holding [SIZE_MAX] balls the maximum
    load is [SIZE_MAX] after both of two rounds; their sum is [2^65 - 2],
    which the [size_t] accumulator holds as [2^64 - 2], and the average
    returned is [2^63] where the claim has [2^64]. *)
Lemma experiment_averages_counterexample :
  ∃ obs avg,
    observe_repetitions (Z.to_nat 1) 1 (2 ^ 64 - 1) 2 [] = Ok obs ∧
    run_experiments_for_n_and_m 1 (2 ^ 64 - 1) 2 1 [] = Ok avg ∧
    map fst obs = [2 ^ 64 - 1; 2 ^ 64 - 1] ∧
    avg.1 = to_double (2 ^ 63) ∧
    (to_double (sum_list_Z (map fst obs)) / to_double (2 * 1))%float
    = to_double (2 ^ 64) ∧
    avg.1 ≠ (to_double (sum_list_Z (map fst obs)) / to_double (2 * 1))%float.
Proof.
  exists [(2 ^ 64 - 1, 0); (2 ^ 64 - 1, 0)], (to_double (2 ^ 63), to_double 0).
  split; [by vm_compute|]. split; [by vm_compute|]. split; [done|].
  split; [done|]. split; [by vm_compute|].
  intros Heq. apply (f_equal Prim2SF) in Heq. vm_compute in Heq. discriminate.
Qed.

(** ** A round in terms of its draws *)

Lemma occurrences_bounds i draws : 0 <= occurrences i draws <= Z.of_nat (length draws).
Proof.
  induction draws as [|d draws IH]; simpl occurrences; simpl length; [lia|].
  pose proof (of_bool_bounds (Nat.eqb (Z.to_nat d) i)). lia.
Qed.

Lemma wrap_add_wrap_r a b : wrap (a + wrap b) = wrap (a + b).
Proof. unfold wrap. by rewrite Zplus_mod_idemp_r. Qed.

Section RoundDraws.
Context {G : Type} `{UniformIntDistribution G}.

Lemma drawn_length k : ∀ uar (g : G), length (drawn k uar g).1 = k.
Proof.
  induction k as [|k IH]; intros uar g; simpl; [done|].
  destruct (draw uar g) as [i g1]. specialize (IH uar g1).
  destruct (drawn k uar g1) as [l g2]. simpl in *. by rewrite IH.
Qed.

Lemma drawn_in_range k : ∀ a b (g : G),
  a <= b → Forall (fun d => a <= d <= b) (drawn k (a, b) g).1.
Proof.
  induction k as [|k IH]; intros a b g Hab; simpl; [apply List.Forall_nil|].
  pose proof (draw_in_range a b g Hab) as Hd.
  destruct (draw (a, b) g) as [i g1]. specialize (IH a b g1 Hab).
  destruct (drawn k (a, b) g1) as [l g2]. simpl in *.
  by apply List.Forall_cons.
Qed.

(** One increment, with the drawn index named. *)
Lemma phase2_body_draw s (g : G) :
  engine_shape s →
  ∃ x, load_vector_ s !! Z.to_nat (draw (bin_uar_ s) g).1 = Some x ∧
       in_range x ∧
       phase2_body s g
       = Ok ({| load_vector_ :=
                  <[Z.to_nat (draw (bin_uar_ s) g).1 := wrap (x + 1)]> (load_vector_ s);
                max_load_ := Z.max (max_load_ s) (wrap (x + 1));
                num_empty_bins_ :=
                  wrap (num_empty_bins_ s - of_bool (wrap (x + 1) =? 1));
                bin_uar_ := bin_uar_ s |}, (draw (bin_uar_ s) g).2).
Proof.
  intros [[Hr Hmax] Hsz Hu]. unfold phase2_body.
  pose proof (draw_in_range 0 (vec_size (load_vector_ s) - 1) g) as Hd.
  rewrite Hu. destruct (draw _ g) as [i g'] eqn:Hdraw. simpl in *.
  assert (0 <= i <= vec_size (load_vector_ s) - 1) as Hi by (apply Hd; lia).
  unfold vec_size in Hi.
  destruct (lookup_lt_is_Some_2 (load_vector_ s) (Z.to_nat i)) as [x Hx]; [lia|].
  exists x. split; [done|]. split; [by eapply Forall_lookup_1|].
  unfold vec_at. by rewrite Hx.
Qed.

(** The second loop adds to every bin, modulo [2^64], the number of times
    it is drawn, and leaves the generator as the draws leave it. *)
Lemma phase2_loop_draws iters : ∀ j s (g : G),
  engine_shape s → 0 <= j → j + Z.of_nat iters <= INT_MAX →
  ∃ s', phase2_loop iters j s g = Ok (s', (drawn iters (bin_uar_ s) g).2) ∧
        ∀ (i : nat) (x : Z), load_vector_ s !! i = Some x →
          load_vector_ s' !! i
          = Some (wrap (x + occurrences i (drawn iters (bin_uar_ s) g).1)).
Proof.
  induction iters as [|iters IH]; intros j s g Hs Hj Hjmax.
  - exists s. split; [done|]. intros i x Hx. simpl.
    rewrite Z.add_0_r, wrap_small; [done|].
    by apply (Forall_lookup_1 _ _ _ _ (proj1 (shape_typed _ Hs)) Hx).
  - destruct (phase2_body_draw s g Hs) as (xd & Hxd & Hrd & Heq).
    destruct (phase2_body_shape _ _ _ _ Hs Heq) as [Hs1 _].
    destruct (IH (j + 1) _ (draw (bin_uar_ s) g).2 Hs1) as (s2 & Heq2 & Hlv2);
      [lia..|].
    cbn [phase2_loop drawn]. rewrite Heq. cbn [rbind].
    destruct (Z.eqb_spec j INT_MAX); [lia|].
    simpl in Heq2, Hlv2.
    destruct (draw (bin_uar_ s) g) as [d g1]. simpl in *.
    destruct (drawn iters (bin_uar_ s) g1) as [ds g2]. simpl in *.
    exists s2. split; [done|]. intros i x Hx.
    destruct (Nat.eqb_spec (Z.to_nat d) i) as [Hdi|Hne]; [subst i|].
    + assert (x = xd) as -> by congruence.
      rewrite (Hlv2 (Z.to_nat d) (wrap (xd + 1))).
      * f_equal. rewrite Z.add_comm, wrap_add_wrap_r. simpl. f_equal. lia.
      * apply list_lookup_insert_eq. by eapply lookup_lt_Some.
    + rewrite (Hlv2 i x); [simpl; by rewrite Z.add_0_l|].
      by rewrite list_lookup_insert_ne.
Qed.

(** The whole round, from a state in which it runs to its end. *)
Lemma nextRound_draws s (g : G) :
  round_pre s →
  ∃ s', nextRound s g
        = Ok (s', (drawn (Z.to_nat (count_nonempty (load_vector_ s)))
                     (0, vec_size (load_vector_ s) - 1) g).2) ∧
        ∀ (i : nat) (x : Z), load_vector_ s !! i = Some x →
          load_vector_ s' !! i
          = Some (wrap (collect x
                        + occurrences i
                            (drawn (Z.to_nat (count_nonempty (load_vector_ s)))
                               (0, vec_size (load_vector_ s) - 1) g).1)).
Proof.
  intros Hpre. pose proof (round_pre_well_typed s Hpre) as Hty.
  pose proof (round_pre_balls s Hpre) as Hballs.
  pose proof (round_pre_shape s Hpre) as Hs.
  pose proof (count_empty_bounds (load_vector_ s)) as Hc.
  pose proof (pre_size s Hpre) as Hsz.
  unfold nextRound. rewrite (phase1_spec s Hty). cbn [rbind].
  set (s1 := {| load_vector_ := map collect (load_vector_ s) |}).
  assert (engine_shape s1) as Hs1.
  { destruct Hs as [[Hr Hmax] Hsz1 Hu].
    split; simpl; unfold well_typed, vec_size in *; rewrite ?length_map; try done.
    split; [|done]. apply Forall_map. eapply Forall_impl; [|exact Hr].
    intros x. apply collect_in_range. }
  destruct (phase2_loop_draws (Z.to_nat (balls_to_allocate s)) 0 s1 g Hs1)
    as (s' & Heq & Hlv); [lia|lia|].
  rewrite count_nonempty_spec, <- Hballs.
  rewrite <- (pre_uar s Hpre).
  exists s'. split; [exact Heq|]. intros i x Hx.
  apply Hlv. simpl.
  change (map collect (load_vector_ s)) with (collect <$> load_vector_ s).
  by rewrite list_lookup_fmap, Hx.
Qed.

End RoundDraws.

Lemma collect_le x y : x <= y → collect x <= collect y.
Proof. unfold collect. intros Hxy. destruct (Z.ltb_spec 0 x), (Z.ltb_spec 0 y); lia. Qed.

Lemma max_entry_collect v :
  Forall in_range v → max_entry (map collect v) = collect (max_entry v).
Proof.
  induction 1 as [|x v [Hx _] Hv IH]; [done|]. simpl. rewrite IH.
  pose proof (max_entry_nonneg v).
  destruct (Z.max_spec x (max_entry v)) as [[Hle ->]|[Hle ->]].
  - apply Z.max_r, collect_le. lia.
  - apply Z.max_l, collect_le. lia.
Qed.

Section RoundTheorems.
Context {G : Type} `{UniformIntDistribution G}.

(** In a round with at most [SIZE_MAX] balls no sum of a collected load
    and its draws leaves [size_t]. *)
Lemma collected_plus_draws_in_range s (g : G) (i : nat) (x : Z) :
  round_pre s → total_load (load_vector_ s) <= SIZE_MAX →
  load_vector_ s !! i = Some x →
  in_range (collect x
            + occurrences i
                (drawn (Z.to_nat (count_nonempty (load_vector_ s)))
                   (0, vec_size (load_vector_ s) - 1) g).1).
Proof.
  intros Hpre Ht Hx.
  pose proof (pre_range s Hpre) as Hr.
  pose proof (Forall_lookup_1 _ _ _ _ Hr Hx) as Hxr.
  pose proof (collect_in_range x Hxr) as [Hc0 _].
  pose proof (total_load_collect _ Hr) as Hcol.
  pose proof (count_empty_bounds (load_vector_ s)) as Hce.
  pose proof (occurrences_bounds i
    (drawn (Z.to_nat (count_nonempty (load_vector_ s)))
       (0, vec_size (load_vector_ s) - 1) g).1) as Hocc.
  rewrite drawn_length in Hocc.
  rewrite count_nonempty_spec in Hocc.
  assert (collect x <= total_load (map collect (load_vector_ s))) as Hle.
  { apply (lookup_le_total _ i).
    - apply Forall_map. eapply Forall_impl; [|exact Hr].
      intros y. apply collect_in_range.
    - change (map collect (load_vector_ s)) with (collect <$> load_vector_ s).
      by rewrite list_lookup_fmap, Hx. }
  rewrite count_nonempty_spec. unfold in_range. lia.
Qed.

(** X1.  A round that starts with a consistent [num_empty_bins_] and at
    most [INT_MAX] bins leaves in every bin, modulo [2^64], its load less
    the ball collected in phase 1 (if it had one) plus the number of times
    the bin is drawn in phase 2; the sum is exact when the balls are at
    most [SIZE_MAX] in total. *)
Theorem round_loads_from_draws (s : RepeatedBallsIntoBins) (g : G) :
  round_pre s →
  ∃ s' g',
    nextRound s g = Ok (s', g') ∧
    ∀ (i : nat) (x : Z), load_vector_ s !! i = Some x →
      let draws := (drawn (Z.to_nat (count_nonempty (load_vector_ s)))
                      (0, vec_size (load_vector_ s) - 1) g).1 in
      load_vector_ s' !! i = Some (wrap (collect x + occurrences i draws)) ∧
      (total_load (load_vector_ s) <= SIZE_MAX →
       load_vector_ s' !! i = Some (collect x + occurrences i draws)).
Proof.
  intros Hpre. destruct (nextRound_draws s g Hpre) as (s' & Heq & Hlv).
  eexists s', _. split; [exact Heq|]. intros i x Hx draws.
  split; [by apply Hlv|]. intros Ht. rewrite (Hlv i x Hx).
  f_equal. apply wrap_small. by apply collected_plus_draws_in_range.
Qed.

(** X2.  Such a round draws exactly once for every bin that is non-empty
    at its start, never more often than there are bins; every drawn index
    is below the number of bins, and the generator is left as these draws
    leave it. *)
Theorem round_consumes_draws (s : RepeatedBallsIntoBins) (g : G) :
  round_pre s →
  let k := Z.to_nat (count_nonempty (load_vector_ s)) in
  let n := vec_size (load_vector_ s) in
  ∃ s',
    nextRound s g = Ok (s', (drawn k (0, n - 1) g).2) ∧
    Z.of_nat k = balls_to_allocate s ∧
    Z.of_nat (length (drawn k (0, n - 1) g).1) = count_nonempty (load_vector_ s) ∧
    count_nonempty (load_vector_ s) <= n ∧
    Forall (fun d => 0 <= d < n) (drawn k (0, n - 1) g).1.
Proof.
  intros Hpre k n. destruct (nextRound_draws s g Hpre) as (s' & Heq & _).
  pose proof (count_empty_bounds (load_vector_ s)) as Hce.
  pose proof (round_pre_balls s Hpre) as Hb.
  pose proof (pre_size s Hpre) as Hsz.
  exists s'. split; [exact Heq|]. unfold k, n.
  rewrite drawn_length, count_nonempty_spec in *.
  split; [lia|]. split; [lia|]. split; [lia|].
  eapply Forall_impl; [|apply drawn_in_range; lia].
  simpl. intros d Hd. lia.
Qed.

(** X3.  In a round from a state of the invariant every bin loses at most
    one ball and gains at most as many as there are non-empty bins; the
    maximum load falls by at most one and rises by at most that number. *)
Theorem round_changes_bounded (s : RepeatedBallsIntoBins) (g : G) :
  engine_ok s →
  ∃ s' g',
    nextRound s g = Ok (s', g') ∧
    (∀ (i : nat) (x : Z), load_vector_ s !! i = Some x →
       ∃ y, load_vector_ s' !! i = Some y ∧
            x - 1 <= y <= x + count_nonempty (load_vector_ s)) ∧
    getMaxLoad s - 1 <= getMaxLoad s'
    <= getMaxLoad s + count_nonempty (load_vector_ s).
Proof.
  intros Hok. pose proof (engine_ok_round_pre s Hok) as Hpre.
  pose proof (ok_total s Hok) as Ht.
  destruct (nextRound_draws s g Hpre) as (s' & Heq & Hlv).
  destruct (nextRound_engine_ok s g Hok) as (s2 & g2 & Heq2 & Hok2 & _ & Hlen).
  rewrite Heq in Heq2. simplify_eq.
  assert (∀ (i : nat) (x : Z), load_vector_ s !! i = Some x →
            ∃ y, load_vector_ s2 !! i = Some y ∧
                 x - 1 <= y <= x + count_nonempty (load_vector_ s)) as Hbins.
  { intros i x Hx. eexists. split; [by apply Hlv|].
    pose proof (collected_plus_draws_in_range s g i x Hpre Ht Hx) as Hin.
    rewrite (wrap_small _ Hin).
    pose proof (occurrences_bounds i
      (drawn (Z.to_nat (count_nonempty (load_vector_ s)))
         (0, vec_size (load_vector_ s) - 1) g).1) as Hocc.
    rewrite drawn_length in Hocc.
    pose proof (count_empty_bounds (load_vector_ s)).
    rewrite count_nonempty_spec in *.
    pose proof (Forall_lookup_1 _ _ _ _ (pre_range s Hpre) Hx) as [Hx0 _].
    destruct (collect_nonneg x Hx0) as (? & ? & ?). lia. }
  eexists _, _. split; [exact Heq|]. split; [exact Hbins|].
  unfold getMaxLoad.
  rewrite (proj1 (ok_stats s Hok)), (proj1 (ok_stats s2 Hok2)).
  pose proof (ok_size s Hok) as Hsz. pose proof (ok_size s2 Hok2) as Hsz2.
  assert (load_vector_ s ≠ []) as Hne
    by (intros Hnil; rewrite Hnil in Hsz; unfold vec_size in Hsz; simpl in Hsz; lia).
  assert (load_vector_ s2 ≠ []) as Hne2
    by (intros Hnil; rewrite Hnil in Hsz2; unfold vec_size in Hsz2; simpl in Hsz2; lia).
  split.
  - pose proof (max_entry_is_maximum _ Hne (ok_range s Hok)) as [Hin _].
    apply list_elem_of_lookup in Hin as [i Hi].
    destruct (Hbins i _ Hi) as (y & Hy & Hyb).
    pose proof (Forall_lookup_1 _ _ _ _ (max_entry_upper (load_vector_ s2)) Hy).
    simpl in *. lia.
  - pose proof (max_entry_is_maximum _ Hne2 (ok_range s2 Hok2)) as [Hin _].
    apply list_elem_of_lookup in Hin as [i Hi].
    destruct (lookup_lt_is_Some_2 (load_vector_ s) i) as [x Hx].
    { rewrite <- Hlen. by eapply lookup_lt_Some. }
    destruct (Hbins i x Hx) as (y & Hy & Hyb).
    pose proof (Forall_lookup_1 _ _ _ _ (max_entry_upper (load_vector_ s)) Hx).
    simpl in *. rewrite Hi in Hy. simplify_eq. lia.
Qed.

End RoundTheorems.

(** ** More on the statistics *)

Lemma total_le_size_times_max v :
  Forall in_range v → total_load v <= vec_size v * max_entry v.
Proof.
  unfold vec_size. induction 1 as [|x v [Hx _] Hv IH]; simpl length; simpl; [lia|].
  pose proof (max_entry_nonneg v). rewrite Nat2Z.inj_succ.
  assert (max_entry v <= Z.max x (max_entry v)) by lia.
  assert (x <= Z.max x (max_entry v)) by lia.
  assert (0 <= Z.of_nat (length v)) by lia. nia.
Qed.

Lemma count_nonempty_le_total v :
  Forall in_range v → count_nonempty v <= total_load v.
Proof.
  induction 1 as [|x v [Hx _] Hv IH]; simpl; [lia|].
  destruct (Z.eqb_spec x 0); simpl; lia.
Qed.

Lemma total_pos_nonempty v :
  Forall in_range v → 1 <= total_load v → 1 <= count_nonempty v.
Proof.
  induction 1 as [|x v [Hx _] Hv IH]; simpl; [lia|]. intros Ht.
  pose proof (count_nonempty_spec v). pose proof (count_empty_bounds v).
  destruct (Z.eqb_spec x 0); simpl; lia.
Qed.

Lemma count_empty_collect v :
  Forall in_range v → count_empty (map collect v) = count_at_most_one v.
Proof.
  induction 1 as [|x v [Hx _] Hv IH]; simpl; [done|]. rewrite IH.
  f_equal. unfold collect.
  destruct (Z.ltb_spec 0 x), (Z.leb_spec x 1); simpl;
    try (destruct (Z.eqb_spec (x - 1) 0)); try (destruct (Z.eqb_spec x 0));
    simpl; lia.
Qed.

Section StatisticsTheorems.
Context {G : Type} `{UniformIntDistribution G}.

(** X4.  After any number of rounds from a state of the invariant with
    [n] bins and [m] balls, the maximum load lies between the average
    [m / n] and [m], and the number of empty bins is at least [n - m] and,
    if there is a ball at all, at most [n - 1]. *)
Theorem statistics_bounds (s : RepeatedBallsIntoBins) (g : G) (k : nat) :
  engine_ok s →
  let n := vec_size (load_vector_ s) in
  let m := total_load (load_vector_ s) in
  ∃ s' g',
    rounds k s g = Ok (s', g') ∧
    m <= n * getMaxLoad s' ∧ getMaxLoad s' <= m ∧
    n - m <= getNumEmptyBins s' <= n ∧
    (1 <= m → 1 <= getMaxLoad s' ∧ getNumEmptyBins s' <= n - 1) ∧
    (m = 0 → getMaxLoad s' = 0 ∧ getNumEmptyBins s' = n).
Proof.
  intros Hok n m.
  destruct (rounds_engine_ok k s g Hok) as (s' & g' & Heq & Hok' & Ht & Hl).
  exists s', g'. split; [done|].
  destruct Hok' as [Hr' Hsz' _ _ [Hm' He']].
  unfold getMaxLoad, getNumEmptyBins, n, m, vec_size in *.
  rewrite Hm', He', <- Ht, <- Hl.
  pose proof (total_le_size_times_max _ Hr') as H1.
  pose proof (max_entry_le_total _ Hr') as H2.
  pose proof (count_nonempty_le_total _ Hr') as H3.
  pose proof (count_nonempty_spec (load_vector_ s')) as H4.
  pose proof (count_empty_bounds (load_vector_ s')) as H5.
  pose proof (max_entry_nonneg (load_vector_ s')) as H6.
  pose proof (total_load_nonneg _ Hr') as H7.
  unfold vec_size in *.
  split; [done|]. split; [done|]. split; [lia|]. split.
  - intros Hpos. pose proof (total_pos_nonempty _ Hr' Hpos). split; [nia|lia].
  - intros Hzero. split; lia.
Qed.

(** X5.  Whatever the cached statistics are, phase 1 leaves [max_load_] at
    the largest load less one (at zero if all bins are empty) and
    [num_empty_bins_] at the number of bins that held at most one ball. *)
Theorem phase1_statistics (s : RepeatedBallsIntoBins) :
  well_typed (load_vector_ s) →
  ∃ s1, phase1 s = Ok s1 ∧
        max_load_ s1 = Z.max 0 (max_entry (load_vector_ s) - 1) ∧
        num_empty_bins_ s1 = count_at_most_one (load_vector_ s) ∧
        bin_uar_ s1 = bin_uar_ s.
Proof.
  intros Hty. eexists. split; [by apply phase1_spec|]. simpl.
  rewrite (max_entry_collect _ (proj1 Hty)), (count_empty_collect _ (proj1 Hty)).
  split; [|done]. pose proof (max_entry_nonneg (load_vector_ s)).
  unfold collect. destruct (Z.ltb_spec 0 (max_entry (load_vector_ s))); lia.
Qed.

(** X6.  The engine built from the empty vector has both statistics at
    zero and its distribution over [0 .. SIZE_MAX], since [size() - 1]
    wraps; a round on it allocates nothing, draws nothing and changes
    nothing. *)
Theorem empty_vector_engine (g : G) (k : nat) :
  getMaxLoad (RepeatedBallsIntoBins_init []) = 0 ∧
  getNumEmptyBins (RepeatedBallsIntoBins_init []) = 0 ∧
  bin_uar_ (RepeatedBallsIntoBins_init []) = (0, SIZE_MAX) ∧
  balls_to_allocate (RepeatedBallsIntoBins_init []) = 0 ∧
  rounds k (RepeatedBallsIntoBins_init []) g = Ok (RepeatedBallsIntoBins_init [], g).
Proof.
  repeat split; try done.
  induction k as [|k IH]; [done|]. cbn [rounds].
  change (nextRound (RepeatedBallsIntoBins_init []) g)
    with (Ok (RepeatedBallsIntoBins_init [], g)).
  cbn [rbind]. exact IH.
Qed.

(** X7.  From a state of the constructor's shape a round is undefined
    exactly when more than [INT_MAX] balls are to be allocated: the [int]
    counter of the second loop then overflows; otherwise the round runs to
    its end. *)
Theorem round_defined_iff (s : RepeatedBallsIntoBins) (g : G) :
  engine_shape s →
  (INT_MAX < balls_to_allocate s → nextRound s g = UB SignedOverflow) ∧
  (balls_to_allocate s <= INT_MAX →
   ∃ s' g', nextRound s g = Ok (s', g') ∧ engine_shape s').
Proof.
  intros Hs. split; [by apply nextRound_overflow|]. intros Hb.
  pose proof Hs as [Hty Hsz Hu].
  unfold nextRound. rewrite (phase1_spec s Hty). cbn [rbind].
  set (s1 := {| load_vector_ := map collect (load_vector_ s) |}).
  assert (engine_shape s1) as Hs1.
  { destruct Hty as [Hr Hmax].
    split; simpl; unfold well_typed, vec_size in *; rewrite ?length_map; try done.
    split; [|done]. apply Forall_map. eapply Forall_impl; [|exact Hr].
    intros x. apply collect_in_range. }
  assert (0 <= balls_to_allocate s) as Hb0.
  { unfold balls_to_allocate. apply wrap_in_range. }
  destruct (phase2_loop_completes (Z.to_nat (balls_to_allocate s)) 0 s1 g Hs1)
    as (s' & g' & Heq & Hs' & _); [lia|lia|].
  by exists s', g'.
Qed.

(** X8.  One increment of phase 2 on an engine with consistent statistics
    leaves them consistent exactly when the drawn bin is not at
    [SIZE_MAX]. *)
Theorem increment_keeps_statistics (s : RepeatedBallsIntoBins) (g : G) :
  engine_shape s → consistent s →
  ∃ x s' g',
    load_vector_ s !! Z.to_nat (draw (bin_uar_ s) g).1 = Some x ∧
    phase2_body s g = Ok (s', g') ∧
    (consistent s' ↔ x ≠ SIZE_MAX).
Proof.
  intros Hs [Hm He].
  destruct (phase2_body_draw s g Hs) as (x & Hx & Hxr & Heq).
  eexists x, _, _. split; [exact Hx|]. split; [exact Heq|].
  pose proof (count_empty_bounds (load_vector_ s)) as Hc.
  pose proof (proj2 (shape_typed _ Hs)) as Hmax.
  unfold consistent. simpl.
  rewrite (count_empty_insert _ _ _ _ Hx), Hm, He.
  destruct (Z.eq_dec x SIZE_MAX) as [->|Hne].
  - assert (wrap (SIZE_MAX + 1) = 0) as -> by reflexivity.
    change (SIZE_MAX =? 0) with false. simpl.
    rewrite Z.sub_0_r, (wrap_small (count_empty _)) by (unfold in_range; lia).
    split; [intros [_ Hbad]; lia|done].
  - assert (wrap (x + 1) = x + 1) as ->
      by (apply wrap_small; unfold in_range in *; lia).
    split; [done|]. intros _. split.
    + symmetry. apply (max_entry_insert _ _ x); [done|lia].
    + unfold of_bool, in_range in *.
      destruct (Z.eqb_spec (x + 1) 1), (Z.eqb_spec x 0), (Z.eqb_spec (x + 1) 0);
        try lia.
      * subst x. pose proof (count_empty_lookup _ _ Hx).
        rewrite wrap_small by (unfold in_range; lia). lia.
      * rewrite wrap_small by (unfold in_range; lia). lia.
Qed.

End StatisticsTheorems.

(** ** More on the initial vector and the experiments *)

Lemma max_entry_concat u v : max_entry (u ++ v) = Z.max (max_entry u) (max_entry v).
Proof.
  induction u as [|x u IH]; simpl.
  - pose proof (max_entry_nonneg v). lia.
  - rewrite IH. lia.
Qed.

Lemma count_empty_concat u v : count_empty (u ++ v) = count_empty u + count_empty v.
Proof. induction u as [|x u IH]; simpl; [done|]. rewrite IH. lia. Qed.

Lemma max_entry_replicate n x :
  0 <= x → max_entry (replicate n x) = if Nat.eqb n 0 then 0 else x.
Proof.
  intros Hx. induction n as [|n IH]; [done|]. simpl. rewrite IH.
  destruct (Nat.eqb n 0); lia.
Qed.

Lemma count_empty_replicate n x :
  count_empty (replicate n x) = if x =? 0 then Z.of_nat n else 0.
Proof.
  induction n as [|n IH]; simpl count_empty; [by destruct (x =? 0)|].
  rewrite IH. destruct (x =? 0); simpl; lia.
Qed.

(** X9.  For at most [max_size()] bins, the engine built from the
    generated vector starts with the maximum load
    [ceil(num_balls / num_bins)] and with [max(0, num_bins - num_balls)]
    empty bins. *)
Theorem generated_engine_statistics (num_bins num_balls : Z) :
  0 < num_bins <= MAX_SIZE → 0 <= num_balls <= SIZE_MAX →
  ∃ v, generate_uniform_vector num_bins num_balls = Ok v ∧
       getMaxLoad (RepeatedBallsIntoBins_init v)
       = (num_balls + num_bins - 1) / num_bins ∧
       getNumEmptyBins (RepeatedBallsIntoBins_init v)
       = Z.max 0 (num_bins - num_balls).
Proof.
  intros Hn Hm. pose proof MAX_SIZE_lt_SIZE_MAX.
  eexists. split; [by apply generate_uniform_vector_value|].
  pose proof (Z.mod_pos_bound num_balls num_bins ltac:(lia)) as Hrem.
  pose proof (Z.div_pos num_balls num_bins ltac:(lia) ltac:(lia)) as Hq0.
  pose proof (Z.div_mod num_balls num_bins ltac:(lia)) as Hdm.
  set (q := num_balls / num_bins) in *. set (r := num_balls mod num_bins) in *.
  set (v := replicate (Z.to_nat r) (q + 1) ++ replicate (Z.to_nat (num_bins - r)) q).
  assert (vec_size v <= SIZE_MAX) as Hsz.
  { unfold v, vec_size. rewrite length_app, !length_replicate. lia. }
  destruct (init_consistent v Hsz) as [Hmax Hemp].
  unfold getMaxLoad, getNumEmptyBins. rewrite Hmax, Hemp, init_load_vector.
  unfold v. rewrite max_entry_concat, count_empty_concat,
    !max_entry_replicate, !count_empty_replicate by lia.
  assert ((num_balls + num_bins - 1) / num_bins
          = q + if r =? 0 then 0 else 1) as ->.
  { destruct (Z.eqb_spec r 0) as [Hr0|Hr0].
    - symmetry. apply (Z.div_unique _ _ _ (num_bins - 1)); lia.
    - symmetry. apply (Z.div_unique _ _ _ (r - 1)); lia. }
  destruct (Z.eqb_spec r 0) as [Hr0|Hr0];
    destruct (Nat.eqb_spec (Z.to_nat r) 0); try lia;
    destruct (Nat.eqb_spec (Z.to_nat (num_bins - r)) 0); try lia;
    destruct (Z.eqb_spec (q + 1) 0); try lia;
    destruct (Z.eqb_spec q 0); split; nia.
Qed.

Lemma generated_engine_statistics_witness :
  ∃ v, generate_uniform_vector 5 3 = Ok v ∧
       getMaxLoad (RepeatedBallsIntoBins_init v) = (3 + 5 - 1) / 5 ∧
       getNumEmptyBins (RepeatedBallsIntoBins_init v) = Z.max 0 (5 - 3).
Proof.
  apply (generated_engine_statistics 5 3); by vm_compute.
Defined.

(** X10.  For at most [max_size()] bins: with [c * num_bins] balls every
    bin starts with [c] balls; with fewer balls than bins the first
    [num_balls] bins start with one ball and the others empty. *)
Theorem generate_uniform_vector_special (num_bins c num_balls : Z) :
  0 < num_bins <= MAX_SIZE →
  0 <= c → c * num_bins <= SIZE_MAX →
  0 <= num_balls < num_bins →
  generate_uniform_vector num_bins (c * num_bins)
  = Ok (replicate (Z.to_nat num_bins) c) ∧
  generate_uniform_vector num_bins num_balls
  = Ok (replicate (Z.to_nat num_balls) 1
        ++ replicate (Z.to_nat (num_bins - num_balls)) 0).
Proof.
  intros Hn Hc Hcn Hm. pose proof MAX_SIZE_lt_SIZE_MAX. split.
  - rewrite generate_uniform_vector_value by nia.
    rewrite Z.mod_mul, Z.div_mul by lia. simpl. by rewrite Z.sub_0_r.
  - rewrite generate_uniform_vector_value by lia.
    by rewrite Z.mod_small, Z.div_small by lia.
Qed.

Lemma generate_uniform_vector_special_witness :
  generate_uniform_vector 3 (4 * 3) = Ok (replicate (Z.to_nat 3) 4) ∧
  generate_uniform_vector 3 2
  = Ok (replicate (Z.to_nat 2) 1 ++ replicate (Z.to_nat (3 - 2)) 0).
Proof.
  apply (generate_uniform_vector_special 3 4 2); by vm_compute.
Defined.

Example generate_uniform_vector_special_values :
  generate_uniform_vector 3 12 = Ok [4; 4; 4] ∧
  generate_uniform_vector 3 2 = Ok [1; 1; 0].
Proof. split; by vm_compute. Qed.

Section ExperimentTheorems.
Context {G : Type} `{UniformIntDistribution G}.

(** X11.  In every repetition of an experiment with at most [INT_MAX]
    bins, the engine built from the generated vector runs any number of
    rounds, and after them it still holds [num_balls] balls in [num_bins]
    bins, with both statistics consistent. *)
Theorem experiment_keeps_balls (num_bins num_balls : Z) (g : G) (k : nat) :
  1 <= num_bins <= INT_MAX → 0 <= num_balls <= SIZE_MAX →
  ∃ v s' g',
    generate_uniform_vector num_bins num_balls = Ok v ∧
    rounds k (RepeatedBallsIntoBins_init v) g = Ok (s', g') ∧
    vec_size (getLoadVector s') = num_bins ∧
    total_load (getLoadVector s') = num_balls ∧
    consistent s'.
Proof.
  intros Hn Hm.
  destruct (generate_engine_ok num_bins num_balls Hn Hm) as (v & Hv & Hok & Hsz & Ht).
  destruct (rounds_engine_ok k _ g Hok) as (s' & g' & Heq & Hok' & Ht' & Hl').
  exists v, s', g'. split; [done|]. split; [done|].
  rewrite init_load_vector in *. unfold getLoadVector, vec_size in *.
  split; [lia|]. split; [lia|]. apply Hok'.
Qed.

(** With no bins and at least one repetition the experiment divides
    by zero in the generator, which is undefined. *)
Theorem zero_bins_undefined (num_balls num_rounds num_repetitions : Z) (g : G) :
  1 <= num_repetitions →
  generate_uniform_vector 0 num_balls = UB DivisionByZero ∧
  run_experiments_for_n_and_m 0 num_balls num_rounds num_repetitions g
  = UB DivisionByZero.
Proof.
  intros HK. split; [done|]. unfold run_experiments_for_n_and_m.
  destruct (Z.to_nat num_repetitions) as [|reps] eqn:Hreps; [lia|]. done.
Qed.

Lemma repetition_loop_no_rounds reps (num_bins num_balls : Z) : ∀ (g : G) agg,
  0 < num_bins <= MAX_SIZE → 0 <= num_balls <= SIZE_MAX →
  repetition_loop reps num_bins num_balls 0 g agg = Ok (g, agg).
Proof.
  intros g agg Hn Hm. induction reps as [|reps IH]; [done|].
  cbn [repetition_loop]. rewrite (generate_uniform_vector_value _ _ Hn Hm).
  cbn [rbind]. exact IH.
Qed.

(** X12.  For at most [max_size()] bins, with no repetition, or with no
    round, nothing is accumulated and both averages are the quotient of
    zero by zero, not a number. *)
Theorem no_rounds_nan (num_bins num_balls num_rounds num_repetitions : Z) (g : G) :
  0 < num_bins <= MAX_SIZE → 0 <= num_balls <= SIZE_MAX →
  num_rounds = 0 ∨ num_repetitions = 0 →
  run_experiments_for_n_and_m num_bins num_balls num_rounds num_repetitions g
  = Ok (nan, nan).
Proof.
  intros Hn Hm [->| ->]; unfold run_experiments_for_n_and_m.
  - rewrite repetition_loop_no_rounds by done. cbn [rbind]. simpl.
    by vm_compute.
  - simpl. rewrite Z.mul_0_r. by vm_compute.
Qed.

End ExperimentTheorems.

Lemma experiment_keeps_balls_witness :
  ∃ v s' g',
    generate_uniform_vector 4 10 = Ok v ∧
    rounds 3 (RepeatedBallsIntoBins_init v) [0; 3; 3; 1; 2] = Ok (s', g') ∧
    vec_size (getLoadVector s') = 4 ∧
    total_load (getLoadVector s') = 10 ∧
    consistent s'.
Proof.
  apply (experiment_keeps_balls 4 10 [0; 3; 3; 1; 2] 3); by vm_compute.
Defined.

Lemma zero_bins_undefined_witness :
  generate_uniform_vector 0 7 = UB DivisionByZero ∧
  run_experiments_for_n_and_m 0 7 5 2 [1; 2] = UB DivisionByZero.
Proof.
  apply (zero_bins_undefined 7 5 2 [1; 2]). by vm_compute.
Defined.

Lemma no_rounds_nan_witness :
  run_experiments_for_n_and_m 4 10 0 3 [1; 2] = Ok (nan, nan).
Proof.
  apply (no_rounds_nan 4 10 0 3 [1; 2]); [by vm_compute|by vm_compute|by left].
Defined.

(** ** The further properties at concrete engines *)

Lemma round_pre_example : round_pre (mkRBB [0; 2; 5] 1 0 (0, 2)).
Proof. split; simpl; [range_list|by vm_compute|done|done]. Qed.

Lemma round_loads_from_draws_witness :
  ∃ s' g',
    nextRound (mkRBB [0; 2; 5] 1 0 (0, 2)) [1; 1] = Ok (s', g') ∧
    ∀ (i : nat) (x : Z), [0; 2; 5] !! i = Some x →
      let draws := (drawn (Z.to_nat (count_nonempty [0; 2; 5]))
                      (0, vec_size [0; 2; 5] - 1) [1; 1]).1 in
      load_vector_ s' !! i = Some (wrap (collect x + occurrences i draws)) ∧
      (total_load [0; 2; 5] <= SIZE_MAX →
       load_vector_ s' !! i = Some (collect x + occurrences i draws)).
Proof.
  apply (round_loads_from_draws (mkRBB [0; 2; 5] 1 0 (0, 2)) [1; 1]).
  apply round_pre_example.
Defined.

Example round_loads_from_draws_values :
  nextRound (mkRBB [0; 2; 5] 1 0 (0, 2)) [1; 1] = Ok (mkRBB [0; 3; 4] 1 4 (0, 2), []) ∧
  (drawn 2 (0, 2) [1; 1]).1 = [1; 1] ∧
  occurrences 1 [1; 1] = 2.
Proof. repeat split; by vm_compute. Qed.

Lemma round_consumes_draws_witness :
  let k := Z.to_nat (count_nonempty [0; 2; 5]) in
  let n := vec_size [0; 2; 5] in
  ∃ s',
    nextRound (mkRBB [0; 2; 5] 1 0 (0, 2)) [1; 0; 2; 2]
    = Ok (s', (drawn k (0, n - 1) [1; 0; 2; 2]).2) ∧
    Z.of_nat k = balls_to_allocate (mkRBB [0; 2; 5] 1 0 (0, 2)) ∧
    Z.of_nat (length (drawn k (0, n - 1) [1; 0; 2; 2]).1) = count_nonempty [0; 2; 5] ∧
    count_nonempty [0; 2; 5] <= n ∧
    Forall (fun d => 0 <= d < n) (drawn k (0, n - 1) [1; 0; 2; 2]).1.
Proof.
  apply (round_consumes_draws (mkRBB [0; 2; 5] 1 0 (0, 2)) [1; 0; 2; 2]).
  apply round_pre_example.
Defined.

Lemma round_changes_bounded_witness :
  ∃ s' g',
    nextRound (RepeatedBallsIntoBins_init [0; 2; 5]) [0; 0] = Ok (s', g') ∧
    (∀ (i : nat) (x : Z), [0; 2; 5] !! i = Some x →
       ∃ y, load_vector_ s' !! i = Some y ∧
            x - 1 <= y <= x + count_nonempty [0; 2; 5]) ∧
    getMaxLoad (RepeatedBallsIntoBins_init [0; 2; 5]) - 1 <= getMaxLoad s'
    <= getMaxLoad (RepeatedBallsIntoBins_init [0; 2; 5]) + count_nonempty [0; 2; 5].
Proof.
  apply (round_changes_bounded (RepeatedBallsIntoBins_init [0; 2; 5]) [0; 0]).
  engine_ok_init.
Defined.

Lemma statistics_bounds_witness :
  let n := vec_size [3; 3; 2; 2] in
  let m := total_load [3; 3; 2; 2] in
  ∃ s' g',
    rounds 2 (RepeatedBallsIntoBins_init [3; 3; 2; 2]) [0; 0; 0; 0; 1] = Ok (s', g') ∧
    m <= n * getMaxLoad s' ∧ getMaxLoad s' <= m ∧
    n - m <= getNumEmptyBins s' <= n ∧
    (1 <= m → 1 <= getMaxLoad s' ∧ getNumEmptyBins s' <= n - 1) ∧
    (m = 0 → getMaxLoad s' = 0 ∧ getNumEmptyBins s' = n).
Proof.
  apply (statistics_bounds (RepeatedBallsIntoBins_init [3; 3; 2; 2]) [0; 0; 0; 0; 1] 2).
  engine_ok_init.
Defined.

Lemma phase1_statistics_witness :
  ∃ s1, phase1 (mkRBB [0; 1; 5] 9 9 (0, 2)) = Ok s1 ∧
        max_load_ s1 = Z.max 0 (max_entry [0; 1; 5] - 1) ∧
        num_empty_bins_ s1 = count_at_most_one [0; 1; 5] ∧
        bin_uar_ s1 = (0, 2).
Proof.
  apply (phase1_statistics (mkRBB [0; 1; 5] 9 9 (0, 2))). simpl. typed_list.
Defined.

Lemma engine_shape_example : engine_shape (mkRBB [1] 2 1 (0, 0)).
Proof. split; simpl; [typed_list|by vm_compute|done]. Qed.

Lemma round_defined_iff_witness :
  (INT_MAX < balls_to_allocate (mkRBB [1] 2 1 (0, 0)) →
   nextRound (mkRBB [1] 2 1 (0, 0)) [] = UB SignedOverflow) ∧
  (balls_to_allocate (mkRBB [1] 2 1 (0, 0)) <= INT_MAX →
   ∃ s' g', nextRound (mkRBB [1] 2 1 (0, 0)) [] = Ok (s', g') ∧ engine_shape s').
Proof.
  apply (round_defined_iff (mkRBB [1] 2 1 (0, 0)) []).
  apply engine_shape_example.
Defined.

Example round_defined_iff_values :
  balls_to_allocate (mkRBB [1] 2 1 (0, 0)) = 2 ^ 64 - 1 ∧
  balls_to_allocate (RepeatedBallsIntoBins_init [1]) = 1.
Proof. split; by vm_compute. Qed.

Lemma increment_keeps_statistics_witness :
  ∃ x s' g',
    load_vector_ (RepeatedBallsIntoBins_init [2 ^ 64 - 1; 1])
      !! Z.to_nat (draw (bin_uar_ (RepeatedBallsIntoBins_init [2 ^ 64 - 1; 1])) [0]).1
    = Some x ∧
    phase2_body (RepeatedBallsIntoBins_init [2 ^ 64 - 1; 1]) [0] = Ok (s', g') ∧
    (consistent s' ↔ x ≠ SIZE_MAX).
Proof.
  apply (increment_keeps_statistics (RepeatedBallsIntoBins_init [2 ^ 64 - 1; 1]) [0]).
  - apply init_engine_shape; [typed_list|done].
  - by vm_compute.
Defined.

Section OutputTheorems.
Context {G : Type} `{UniformIntDistribution G}.

Lemma scale_factors_bounds : Forall (fun sf => 1 <= sf <= 52) scale_factors.
Proof. repeat (apply List.Forall_cons; [by vm_compute|]). apply List.Forall_nil. Qed.

(** The lines of one bin count, with the balls of each experiment
    written without [wrap]. *)
Lemma report_lines (num_bins num_rounds num_repetitions : Z) (g : G) :
  1 <= num_bins <= 10000 →
  ∃ avg : Z → float * float,
    (∀ sf, sf ∈ scale_factors →
       run_experiments_for_n_and_m num_bins (sf * num_bins) num_rounds
         num_repetitions g = Ok (avg sf)) ∧
    report num_bins num_rounds num_repetitions g
    = Ok (Header num_bins
          :: map (fun sf => Point sf (avg sf).1) scale_factors
          ++ map (fun sf => Point sf ((avg sf).2 / to_double num_bins)%float)
               scale_factors).
Proof.
  intros Hn.
  destruct (report_spec num_bins num_rounds num_repetitions g) as (avg & Havg & Hrep).
  { unfold INT_MAX. lia. }
  exists avg. split; [|done]. intros sf Hsf.
  pose proof scale_factors_bounds as Hb.
  apply list_elem_of_lookup in Hsf as [i Hi].
  pose proof (Forall_lookup_1 _ _ _ _ Hb Hi) as Hsfb. simpl in Hsfb.
  rewrite <- (Havg sf). f_equal. symmetry. apply wrap_small.
  unfold in_range, SIZE_MAX, modulus. nia.
Qed.

(** X13.  [run_experiments], and so [main], never runs into undefined
    behaviour, whatever the generator and the number of repetitions.  It
    writes 111 lines: for 100, 1000 and 10000 bins in turn the header, then
    for the scale factors 1, 4, ..., 52 the average maximum load of the
    experiment with [scale_factor * num_bins] balls and a million rounds,
    then for the same scale factors its average number of empty bins
    divided by [double(num_bins)]. *)
Theorem run_experiments_output (num_repetitions : Z) (g : G) :
  ∃ avg : Z → Z → float * float,
    (∀ num_bins sf, num_bins ∈ [100; 1000; 10000] → sf ∈ scale_factors →
       run_experiments_for_n_and_m num_bins (sf * num_bins) 1000000
         num_repetitions g = Ok (avg num_bins sf)) ∧
    run_experiments num_repetitions g
    = Ok (flat_map
            (fun num_bins =>
               Header num_bins
               :: map (fun sf => Point sf (avg num_bins sf).1) scale_factors
               ++ map (fun sf =>
                         Point sf ((avg num_bins sf).2 / to_double num_bins)%float)
                    scale_factors)
            [100; 1000; 10000]) ∧
    (∀ lines, run_experiments num_repetitions g = Ok lines → length lines = 111%nat) ∧
    main g = run_experiments 25 g.
Proof.
  destruct (report_lines 100 1000000 num_repetitions g) as (a1 & Ha1 & H1); [lia|].
  destruct (report_lines 1000 1000000 num_repetitions g) as (a2 & Ha2 & H2); [lia|].
  destruct (report_lines 10000 1000000 num_repetitions g) as (a3 & Ha3 & H3); [lia|].
  pose (avg := fun n : Z => if n =? 100 then a1 else if n =? 1000 then a2 else a3).
  exists avg.
  assert (run_experiments num_repetitions g
          = Ok (flat_map
            (fun num_bins =>
               Header num_bins
               :: map (fun sf => Point sf (avg num_bins sf).1) scale_factors
               ++ map (fun sf =>
                         Point sf ((avg num_bins sf).2 / to_double num_bins)%float)
                    scale_factors)
            [100; 1000; 10000])) as Hrun.
  { unfold run_experiments. cbn [report_all]. rewrite H1, H2, H3. cbn [rbind].
    unfold avg. cbn [flat_map Z.eqb Pos.eqb]. by rewrite !app_nil_r. }
  split; [|split; [exact Hrun|split; [|done]]].
  - intros n sf Hn Hsf.
    apply list_elem_of_In in Hn. simpl in Hn.
    destruct Hn as [<-|[<-|[<-|[]]]]; unfold avg; cbn [Z.eqb Pos.eqb]; auto.
  - intros lines Hlines. rewrite Hrun in Hlines. simplify_eq.
    cbn [flat_map length]. rewrite ?length_app. cbn [length].
    rewrite ?length_app, ?length_map. reflexivity.
Qed.

End OutputTheorems.

(** ** Phase 2 and the statistics; the order of the draws *)

Lemma occurrences_Permutation i l1 l2 :
  Permutation l1 l2 → occurrences i l1 = occurrences i l2.
Proof.
  induction 1 as [|x l1 l2 _ IH|x y l|l1 l2 l3 _ IH1 _ IH2]; simpl; lia.
Qed.

Section Phase2Statistics.
Context {G : Type} `{UniformIntDistribution G}.

(** While nothing wraps, an increment raises [max_load_] by at most one
    and lowers [num_empty_bins_] by at most one. *)
Lemma phase2_body_stats s (g : G) balls :
  phase2_inv s balls → 1 <= balls →
  ∃ s' g', phase2_body s g = Ok (s', g') ∧ phase2_inv s' (balls - 1) ∧
           max_load_ s <= max_load_ s' <= max_load_ s + 1 ∧
           num_empty_bins_ s - 1 <= num_empty_bins_ s' <= num_empty_bins_ s.
Proof.
  intros Hinv Hb.
  destruct (phase2_body_inv s g balls Hinv Hb) as (s' & g' & Heq & Hinv' & _ & _).
  exists s', g'. split; [done|]. split; [done|].
  destruct Hinv as [Hs Ht [Hm He]]. destruct Hinv' as [_ _ [_ He']].
  destruct (phase2_body_draw s g Hs) as (x & Hx & Hxr & Heq2).
  rewrite Heq2 in Heq. simplify_eq. simpl in *.
  pose proof (lookup_le_total _ _ _ (proj1 (shape_typed _ Hs)) Hx) as Hxt.
  assert (wrap (x + 1) = x + 1) as Hw
    by (apply wrap_small; unfold in_range in *; lia).
  rewrite Hw in *.
  pose proof (Forall_lookup_1 _ _ _ _ (max_entry_upper (load_vector_ s)) Hx) as Hxm.
  simpl in Hxm. split; [lia|].
  rewrite He', (count_empty_insert _ _ _ _ Hx), He.
  unfold of_bool, in_range in *.
  destruct (Z.eqb_spec x 0), (Z.eqb_spec (x + 1) 0); lia.
Qed.

Lemma phase2_loop_stats iters : ∀ j s (g : G),
  phase2_inv s (Z.of_nat iters) → 0 <= j → j + Z.of_nat iters <= INT_MAX →
  ∃ s' g', phase2_loop iters j s g = Ok (s', g') ∧
           max_load_ s <= max_load_ s' <= max_load_ s + Z.of_nat iters ∧
           num_empty_bins_ s - Z.of_nat iters <= num_empty_bins_ s'
           <= num_empty_bins_ s.
Proof.
  induction iters as [|iters IH]; intros j s g Hinv Hj Hjmax.
  - exists s, g. simpl. split; [done|]. lia.
  - destruct (phase2_body_stats s g _ Hinv) as (s1 & g1 & Heq & Hinv1 & Hm1 & He1);
      [lia|].
    replace (Z.of_nat (S iters) - 1) with (Z.of_nat iters) in Hinv1 by lia.
    destruct (IH (j + 1) s1 g1 Hinv1) as (s2 & g2 & Heq2 & Hm2 & He2); [lia..|].
    exists s2, g2. cbn [phase2_loop]. rewrite Heq. cbn [rbind].
    destruct (Z.eqb_spec j INT_MAX); [lia|]. split; [done|]. lia.
Qed.

(** X14.  In a round from a state of the invariant, phase 2 never lowers
    the maximum found by phase 1 and never raises its count of empty bins:
    with [b] balls to allocate it raises the maximum by at most [b] and
    closes at most [b] empty bins. *)
Theorem phase2_moves_statistics (s : RepeatedBallsIntoBins) (g : G) :
  engine_ok s →
  ∃ s1 s' g',
    phase1 s = Ok s1 ∧ nextRound s g = Ok (s', g') ∧
    getMaxLoad s1 <= getMaxLoad s' <= getMaxLoad s1 + balls_to_allocate s ∧
    getNumEmptyBins s1 - balls_to_allocate s <= getNumEmptyBins s'
    <= getNumEmptyBins s1.
Proof.
  intros Hok. pose proof (engine_ok_round_pre s Hok) as Hpre.
  pose proof (round_pre_well_typed s Hpre) as Hty.
  pose proof (phase1_spec s Hty) as Hp1.
  destruct (phase1_establishes_inv s _ Hpre (ok_total s Hok) Hp1) as [Hinv _].
  pose proof (round_pre_balls s Hpre) as Hb.
  pose proof (count_empty_bounds (load_vector_ s)) as Hc.
  pose proof (pre_size s Hpre) as Hsz.
  rewrite <- (Z2Nat.id (balls_to_allocate s)) in Hinv by lia.
  destruct (phase2_loop_stats _ 0 _ g Hinv) as (s' & g' & Heq & Hm & He); [lia..|].
  rewrite Z2Nat.id in Hm, He by lia.
  eexists _, s', g'. split; [exact Hp1|].
  split; [unfold nextRound; rewrite Hp1; exact Heq|].
  unfold getMaxLoad, getNumEmptyBins. split; [exact Hm|exact He].
Qed.

(** X15.  From a state of the invariant, two rounds whose draws are the
    same up to their order end in the same engine. *)
Theorem draw_order_irrelevant (s : RepeatedBallsIntoBins) (g1 g2 : G) :
  engine_ok s →
  let k := Z.to_nat (count_nonempty (load_vector_ s)) in
  let uar := (0, vec_size (load_vector_ s) - 1) in
  Permutation (drawn k uar g1).1 (drawn k uar g2).1 →
  ∃ s', nextRound s g1 = Ok (s', (drawn k uar g1).2) ∧
        nextRound s g2 = Ok (s', (drawn k uar g2).2).
Proof.
  intros Hok k uar Hperm. pose proof (engine_ok_round_pre s Hok) as Hpre.
  destruct (nextRound_draws s g1 Hpre) as (s1 & Heq1 & Hlv1).
  destruct (nextRound_draws s g2 Hpre) as (s2 & Heq2 & Hlv2).
  fold k uar in Heq1, Heq2, Hlv1, Hlv2.
  destruct (nextRound_engine_ok s g1 Hok) as (s1' & g1' & Heq1' & Hok1 & _ & Hl1).
  destruct (nextRound_engine_ok s g2 Hok) as (s2' & g2' & Heq2' & Hok2 & _ & Hl2).
  assert (s1' = s1) as -> by congruence.
  assert (s2' = s2) as -> by congruence.
  clear Heq1' Heq2' g1' g2'.
  assert (load_vector_ s1 = load_vector_ s2) as Hlv.
  { apply list_eq. intros i.
    destruct (load_vector_ s !! i) as [x|] eqn:Hx.
    - rewrite (Hlv1 i x Hx), (Hlv2 i x Hx).
      by rewrite (occurrences_Permutation i _ _ Hperm).
    - apply lookup_ge_None in Hx.
      rewrite (proj2 (lookup_ge_None (load_vector_ s1) i)) by lia.
      rewrite (proj2 (lookup_ge_None (load_vector_ s2) i)) by lia. done. }
  assert (s1 = s2) as ->.
  { destruct Hok1 as [_ _ _ Hu1 [Hm1 He1]]. destruct Hok2 as [_ _ _ Hu2 [Hm2 He2]].
    destruct s1, s2. simpl in *. subst. done. }
  by exists s2.
Qed.

End Phase2Statistics.

Lemma phase2_moves_statistics_witness :
  ∃ s1 s' g',
    phase1 (RepeatedBallsIntoBins_init [0; 2; 5]) = Ok s1 ∧
    nextRound (RepeatedBallsIntoBins_init [0; 2; 5]) [0; 2] = Ok (s', g') ∧
    getMaxLoad s1 <= getMaxLoad s'
    <= getMaxLoad s1 + balls_to_allocate (RepeatedBallsIntoBins_init [0; 2; 5]) ∧
    getNumEmptyBins s1 - balls_to_allocate (RepeatedBallsIntoBins_init [0; 2; 5])
    <= getNumEmptyBins s' <= getNumEmptyBins s1.
Proof.
  apply (phase2_moves_statistics (RepeatedBallsIntoBins_init [0; 2; 5]) [0; 2]).
  engine_ok_init.
Defined.

Lemma draw_order_irrelevant_witness :
  ∃ s', nextRound (RepeatedBallsIntoBins_init [0; 2; 5]) [0; 2]
        = Ok (s', (drawn (Z.to_nat (count_nonempty [0; 2; 5]))
                     (0, vec_size [0; 2; 5] - 1) [0; 2]).2) ∧
        nextRound (RepeatedBallsIntoBins_init [0; 2; 5]) [2; 0]
        = Ok (s', (drawn (Z.to_nat (count_nonempty [0; 2; 5]))
                     (0, vec_size [0; 2; 5] - 1) [2; 0]).2).
Proof.
  apply (draw_order_irrelevant (RepeatedBallsIntoBins_init [0; 2; 5]) [0; 2] [2; 0]).
  - engine_ok_init.
  - vm_compute. apply perm_swap.
Defined.
